(** * PairRanker: the binary-insertion ranking engine and its reducer

    A shallow embedding of [src/utils/rankingAlgorithm.ts], of
    [appReducer] in [src/context/AppContext.tsx] and of the payload
    conversions of [src/utils/urlEncoding.ts], with the properties of the
    ranking session and of the application state stated over them.

    Modelling conventions.
    - Item identifiers are JavaScript strings: [string].
    - [low], [high] and [mid] are JavaScript numbers holding integers
      (they can become [-1]); they are modelled as [Z], and
      [Math.floor(x / 2)] is [Z.div x 2], which rounds towards minus
      infinity as [Math.floor] does.
    - Arrays are lists.  [a.slice(1)] is [drop 1 a]; [a.splice(i, 0, x)]
      is [splice_insert i x a], with the clamping of the start index that
      [Array.prototype.splice] performs.  A second embedding of the engine
      keeps the arrays in a store of references ([processComparison_h]);
      it is shown to compute the same values and to change no array that
      existed before a call.
    - A function returning [T | null] returns [option T].
    - An optional field ([mode?], [rankedData?], [unrankedItems?]) is an
      [option]; [undefined] is [None]. *)

From Stdlib Require Import ZArith Lia.
From stdpp Require Import base option list strings.

Local Open Scope Z_scope.

(** ** Types ([src/types]) *)

(** [ListItem = { id: string; text: string }].  The fields carry a prefix
    because [id] is the identity function in Rocq. *)
Record ListItem : Type := mkListItem {
  item_id : string;
  item_text : string;
}.

Inductive RankingMode : Type :=
| full
| partial.

Record RankingState : Type := mkRankingState {
  sortedListItemIds : list string;
  pendingItemIds : list string;
  currentCandidateId : string;
  low : Z;
  high : Z;
  mode : option RankingMode;
}.

(** ** JavaScript array primitives used by the engine *)

(** [a[i]] for a literal index [i] that the surrounding guard keeps in
    range.  The default stands for [undefined]; the lemmas
    [initializeRankingState_reads], [initializePartialRankingState_reads]
    and [processComparison_reads] show that no read of the engine reaches
    it. *)
Definition at_index (a : list string) (i : nat) : string :=
  default EmptyString (a !! i).

(** [a[i]] for a computed index: [None] is [undefined] (index negative or
    past the end). *)
Definition js_index (a : list string) (i : Z) : option string :=
  if i <? 0 then None else a !! Z.to_nat i.

(** [a.slice(1)]. *)
Definition slice1 (a : list string) : list string := drop 1 a.

(** [b = [...a]; b.splice(start, 0, x)]: a negative [start] counts from the
    end and is clamped at [0]; a [start] past the end is clamped at the
    length. *)
Definition splice_insert (start : Z) (x : string) (a : list string)
  : list string :=
  let len := Z.of_nat (length a) in
  let actualStart :=
    if start <? 0 then Z.max (len + start) 0 else Z.min start len in
  take (Z.to_nat actualStart) a ++ x :: drop (Z.to_nat actualStart) a.

(** ** The engine ([src/utils/rankingAlgorithm.ts]) *)

Definition initializeRankingState (items : list ListItem)
  : option RankingState :=
  if (length items <? 2)%nat then None
  else
    let itemIds := map item_id items in
    Some {| sortedListItemIds := [at_index itemIds 0];
            pendingItemIds := slice1 itemIds;
            currentCandidateId := at_index itemIds 1;
            low := 0;
            high := 0;
            mode := Some full |}.

Definition initializePartialRankingState
  (existingRankedIds : list string) (newItems : list ListItem)
  : option RankingState :=
  if (length newItems =? 0)%nat then None
  else if (length existingRankedIds =? 0)%nat then
    initializeRankingState newItems
  else
    let newItemIds := map item_id newItems in
    Some {| sortedListItemIds := existingRankedIds;
            pendingItemIds := slice1 newItemIds;
            currentCandidateId := at_index newItemIds 0;
            low := 0;
            high := Z.of_nat (length existingRankedIds) - 1;
            mode := Some partial |}.

Definition processComparison (state : RankingState) (chooseCandidate : bool)
  : option RankingState :=
  let mid := (low state + high state) / 2 in
  let newLow := if chooseCandidate then low state else mid + 1 in
  let newHigh := if chooseCandidate then mid - 1 else high state in
  if newLow >? newHigh then
    let newSortedList :=
      splice_insert newLow (currentCandidateId state)
        (sortedListItemIds state) in
    let newPendingItems := slice1 (pendingItemIds state) in
    if (length newPendingItems =? 0)%nat then None
    else
      Some {| sortedListItemIds := newSortedList;
              pendingItemIds := newPendingItems;
              currentCandidateId := at_index (pendingItemIds state) 0;
              low := 0;
              high := Z.of_nat (length newSortedList) - 1;
              mode := mode state |}
  else
    Some {| sortedListItemIds := sortedListItemIds state;
            pendingItemIds := pendingItemIds state;
            currentCandidateId := currentCandidateId state;
            low := newLow;
            high := newHigh;
            mode := mode state |}.

Record Comparison : Type := mkComparison {
  candidateId : string;
  referenceId : option string;
}.

Definition getCurrentComparison (state : RankingState) : Comparison :=
  let mid := (low state + high state) / 2 in
  {| candidateId := currentCandidateId state;
     referenceId := js_index (sortedListItemIds state) mid |}.

(** ** Application state and reducer ([src/context/AppContext.tsx]) *)

Inductive ListStatus : Type :=
| unranked
| ranking
| ranked.

Record RankedListData : Type := mkRankedListData {
  itemIdsInOrder : list string;
}.

(** The TypeScript type [List]; renamed because [List] is the list module,
    and its [id]/[name] fields are prefixed like those of [ListItem]. *)
Record RankList : Type := mkRankList {
  list_id : string;
  list_name : string;
  items : list ListItem;
  status : ListStatus;
  rankedData : option RankedListData;
  unrankedItems : option (list ListItem);
  createdAt : Z;
}.

Inductive Tab : Type :=
| tab_current
| tab_myLists.

Inductive View : Type :=
| view_currentList
| view_ranking
| view_rankedResult.

Record AppState : Type := mkAppState {
  lists : list RankList;
  currentListId : option string;
  rankingState : option RankingState;
  currentTab : Tab;
  currentView : View;
}.

(** The actions whose reducer case calls the engine, with [SET_TAB] and
    [SET_VIEW].  The other cases of [appReducer] are the actions of
    [ListAction], reduced by [appReducerLists] below. *)
Inductive Action : Type :=
| SET_TAB (tab : Tab)
| SET_VIEW (view : View)
| START_RANKING (listId : string)
| START_PARTIAL_RANKING (listId : string)
| MAKE_COMPARISON (chooseCandidate : bool).

(** [list.id === state.currentListId], where [currentListId] may be
    [null]. *)
Definition is_current (state : AppState) (l : RankList) : bool :=
  match currentListId state with
  | Some cur => String.eqb (list_id l) cur
  | None => false
  end.

(** [state.lists.find((l) => l.id === listId)]. *)
Definition find_list (state : AppState) (listId : string)
  : option RankList :=
  List.find (fun l => String.eqb (list_id l) listId) (lists state).

Definition appReducer (state : AppState) (action : Action) : AppState :=
  match action with
  | SET_TAB tab =>
      {| lists := lists state;
         currentListId := currentListId state;
         rankingState := rankingState state;
         currentTab := tab;
         currentView := currentView state |}
  | SET_VIEW view =>
      {| lists := lists state;
         currentListId := currentListId state;
         rankingState := rankingState state;
         currentTab := currentTab state;
         currentView := view |}
  | START_RANKING listId =>
      match find_list state listId with
      | None => state
      | Some list =>
          let allItems := items list ++ default [] (unrankedItems list) in
          if (length allItems <? 2)%nat then state
          else
            match initializeRankingState allItems with
            | None => state
            | Some rs =>
                {| lists :=
                     map (fun l =>
                            if String.eqb (list_id l) listId then
                              {| list_id := list_id l;
                                 list_name := list_name l;
                                 items := allItems;
                                 status := ranking;
                                 rankedData := None;
                                 unrankedItems := None;
                                 createdAt := createdAt l |}
                            else l)
                       (lists state);
                   currentListId := currentListId state;
                   rankingState := Some rs;
                   currentTab := currentTab state;
                   currentView := view_ranking |}
            end
      end
  | START_PARTIAL_RANKING listId =>
      match find_list state listId with
      | None => state
      | Some list =>
          match rankedData list, unrankedItems list with
          | Some rd, Some unrankedOfList =>
              if (length unrankedOfList =? 0)%nat then state
              else
                match
                  initializePartialRankingState (itemIdsInOrder rd)
                    unrankedOfList
                with
                | None => state
                | Some rs =>
                    {| lists :=
                         map (fun l =>
                                if String.eqb (list_id l) listId then
                                  {| list_id := list_id l;
                                     list_name := list_name l;
                                     items :=
                                       items l
                                       ++ default [] (unrankedItems l);
                                     status := ranking;
                                     rankedData := rankedData l;
                                     unrankedItems := unrankedItems l;
                                     createdAt := createdAt l |}
                                else l)
                           (lists state);
                       currentListId := currentListId state;
                       rankingState := Some rs;
                       currentTab := currentTab state;
                       currentView := view_ranking |}
                end
          | _, _ => state
          end
      end
  | MAKE_COMPARISON chooseCandidate =>
      match rankingState state with
      | None => state
      | Some rs =>
          match processComparison rs chooseCandidate with
          | None =>
              let finalOrder := sortedListItemIds rs in
              {| lists :=
                   map (fun list =>
                          if is_current state list then
                            {| list_id := list_id list;
                               list_name := list_name list;
                               items := items list;
                               status := ranked;
                               rankedData :=
                                 Some {| itemIdsInOrder := finalOrder |};
                               unrankedItems := None;
                               createdAt := createdAt list |}
                          else list)
                     (lists state);
                 currentListId := currentListId state;
                 rankingState := None;
                 currentTab := currentTab state;
                 currentView := view_rankedResult |}
          | Some newRankingState =>
              {| lists := lists state;
                 currentListId := currentListId state;
                 rankingState := Some newRankingState;
                 currentTab := currentTab state;
                 currentView := currentView state |}
          end
      end
  end.

(** ** The list-editing cases of the reducer *)

(** The cases of [appReducer] that do not call the engine.  The values
    that [generateId()] and [Date.now()] return while an action is handled
    are carried by the action ([newId], [now]); [DELETE_LIST] uses them
    only when no list is left.  [ADD_ITEM] and [ADD_ITEM_TO_RANKED_LIST]
    call [generateId()] inside the [map] callback, once for every list
    they change: [gen k] is what call number [k] returns.  Their
    [trimmedText] is the value of [action.text.trim()]. *)
Inductive ListAction : Type :=
| CREATE_LIST (newId : string) (now : Z)
| SET_CURRENT_LIST (listId : string)
| UPDATE_LIST_NAME (listId : string) (name : string)
| ADD_ITEM (listId : string) (trimmedText : string) (gen : nat -> string)
| DELETE_ITEM (listId : string) (itemId : string)
| ADD_ITEM_TO_RANKED_LIST (listId : string) (trimmedText : string)
    (gen : nat -> string)
| DELETE_UNRANKED_ITEM (listId : string) (itemId : string)
| COMPLETE_RANKING
| DELETE_LIST (listId : string) (newId : string) (now : Z)
| LOAD_SHARED_LIST (list : RankList) (newId : string).


(** The list literal of [CREATE_LIST], [DELETE_LIST] and
    [createInitialState]. *)
Definition emptyList (newId : string) (now : Z) : RankList :=
  {| list_id := newId;
     list_name := EmptyString;
     items := [];
     status := unranked;
     rankedData := None;
     unrankedItems := None;
     createdAt := now |}.

(** [status === 'ranked']. *)
Definition is_ranked (st : ListStatus) : bool :=
  match st with
  | ranked => true
  | _ => false
  end.

(** [status === 'ranking']. *)
Definition is_ranking (st : ListStatus) : bool :=
  match st with
  | ranking => true
  | _ => false
  end.

(** [ids.includes(x)]. *)
Definition includes (ids : list string) (x : string) : bool :=
  existsb (String.eqb x) ids.

(** Truthiness of a string: every string but the empty one. *)
Definition truthy (x : string) : bool :=
  match x with
  | EmptyString => false
  | String _ _ => true
  end.

(** [lists.map((list) => list.id === listId ? { ...list, items:
    [...list.items, { id: generateId(), text }] } : list)]; [k] counts the
    calls of [generateId()] made so far. *)
Fixpoint addItem (gen : nat -> string) (k : nat) (listId : string)
  (text : string) (ls : list RankList) : list RankList :=
  match ls with
  | [] => []
  | list :: rest =>
      if String.eqb (list_id list) listId then
        {| list_id := list_id list;
           list_name := list_name list;
           items := items list ++ [ {| item_id := gen k; item_text := text |} ];
           status := status list;
           rankedData := rankedData list;
           unrankedItems := unrankedItems list;
           createdAt := createdAt list |}
        :: addItem gen (S k) listId text rest
      else list :: addItem gen k listId text rest
  end.

(** The same for [ADD_ITEM_TO_RANKED_LIST]: only lists with
    [status === 'ranked'] change, and the item goes to [unrankedItems]. *)
Fixpoint addUnrankedItem (gen : nat -> string) (k : nat) (listId : string)
  (text : string) (ls : list RankList) : list RankList :=
  match ls with
  | [] => []
  | list :: rest =>
      if String.eqb (list_id list) listId && is_ranked (status list) then
        {| list_id := list_id list;
           list_name := list_name list;
           items := items list;
           status := status list;
           rankedData := rankedData list;
           unrankedItems :=
             Some (default [] (unrankedItems list)
                   ++ [ {| item_id := gen k; item_text := text |} ]);
           createdAt := createdAt list |}
        :: addUnrankedItem gen (S k) listId text rest
      else list :: addUnrankedItem gen k listId text rest
  end.

Definition appReducerLists (state : AppState) (action : ListAction)
  : AppState :=
  match action with
  | CREATE_LIST newId now =>
      let newList := emptyList newId now in
      {| lists := lists state ++ [newList];
         currentListId := Some (list_id newList);
         rankingState := rankingState state;
         currentTab := tab_current;
         currentView := view_currentList |}
  | SET_CURRENT_LIST listId =>
      match find_list state listId with
      | None => state
      | Some list =>
          {| lists := lists state;
             currentListId := Some listId;
             rankingState := None;
             currentTab := tab_current;
             currentView :=
               if is_ranked (status list) then view_rankedResult
               else view_currentList |}
      end
  | UPDATE_LIST_NAME listId name =>
      {| lists :=
           map (fun list =>
                  if String.eqb (list_id list) listId then
                    {| list_id := list_id list;
                       list_name := name;
                       items := items list;
                       status := status list;
                       rankedData := rankedData list;
                       unrankedItems := unrankedItems list;
                       createdAt := createdAt list |}
                  else list)
             (lists state);
         currentListId := currentListId state;
         rankingState := rankingState state;
         currentTab := currentTab state;
         currentView := currentView state |}
  | ADD_ITEM listId trimmedText gen =>
      if negb (truthy trimmedText) then state
      else
        {| lists := addItem gen 0 listId trimmedText (lists state);
           currentListId := currentListId state;
           rankingState := rankingState state;
           currentTab := currentTab state;
           currentView := currentView state |}
  | ADD_ITEM_TO_RANKED_LIST listId trimmedText gen =>
      if negb (truthy trimmedText) then state
      else
        {| lists := addUnrankedItem gen 0 listId trimmedText (lists state);
           currentListId := currentListId state;
           rankingState := rankingState state;
           currentTab := currentTab state;
           currentView := currentView state |}
  | DELETE_ITEM listId itemId =>
      {| lists :=
           map (fun list =>
                  if String.eqb (list_id list) listId then
                    {| list_id := list_id list;
                       list_name := list_name list;
                       items :=
                         List.filter
                           (fun item => negb (String.eqb (item_id item) itemId))
                           (items list);
                       status := status list;
                       rankedData := rankedData list;
                       unrankedItems := unrankedItems list;
                       createdAt := createdAt list |}
                  else list)
             (lists state);
         currentListId := currentListId state;
         rankingState := rankingState state;
         currentTab := currentTab state;
         currentView := currentView state |}
  | DELETE_UNRANKED_ITEM listId itemId =>
      {| lists :=
           map (fun list =>
                  if String.eqb (list_id list) listId then
                    {| list_id := list_id list;
                       list_name := list_name list;
                       items := items list;
                       status := status list;
                       rankedData := rankedData list;
                       unrankedItems :=
                         Some (List.filter
                                 (fun item =>
                                    negb (String.eqb (item_id item) itemId))
                                 (default [] (unrankedItems list)));
                       createdAt := createdAt list |}
                  else list)
             (lists state);
         currentListId := currentListId state;
         rankingState := rankingState state;
         currentTab := currentTab state;
         currentView := currentView state |}
  | COMPLETE_RANKING =>
      let isPartialMode :=
        match rankingState state with
        | Some rs =>
            match mode rs with
            | Some partial => true
            | _ => false
            end
        | None => false
        end in
      {| lists :=
           map (fun list =>
                  if negb (is_current state list)
                     || negb (is_ranking (status list))
                  then list
                  else if isPartialMode then
                    let sortedIds :=
                      match rankingState state with
                      | Some rs => sortedListItemIds rs
                      | None => []
                      end in
                    let uninsertedItemIds :=
                      match rankingState state with
                      | Some rs => pendingItemIds rs
                      | None => []
                      end in
                    let itemsToRemove :=
                      match rankingState state with
                      | Some rs =>
                          if truthy (currentCandidateId rs) then
                            uninsertedItemIds ++ [currentCandidateId rs]
                          else uninsertedItemIds
                      | None => uninsertedItemIds
                      end in
                    {| list_id := list_id list;
                       list_name := list_name list;
                       items :=
                         List.filter
                           (fun item =>
                              negb (includes itemsToRemove (item_id item)))
                           (items list);
                       status := ranked;
                       rankedData :=
                         Some {| itemIdsInOrder := sortedIds |};
                       unrankedItems := None;
                       createdAt := createdAt list |}
                  else
                    {| list_id := list_id list;
                       list_name := list_name list;
                       items := items list;
                       status := unranked;
                       rankedData := rankedData list;
                       unrankedItems := None;
                       createdAt := createdAt list |})
             (lists state);
         currentListId := currentListId state;
         rankingState := None;
         currentTab := currentTab state;
         currentView :=
           if isPartialMode then view_rankedResult else view_currentList |}
  | DELETE_LIST listId newId now =>
      let listsAfterDelete :=
        List.filter (fun l => negb (String.eqb (list_id l) listId))
          (lists state) in
      match listsAfterDelete with
      | [] =>
          let newList := emptyList newId now in
          {| lists := [newList];
             currentListId := Some (list_id newList);
             rankingState := None;
             currentTab := currentTab state;
             currentView := currentView state |}
      | firstLeft :: _ =>
          let newCurrentListId :=
            match currentListId state with
            | Some cur =>
                if String.eqb cur listId then Some (list_id firstLeft)
                else Some cur
            | None => None
            end in
          {| lists := listsAfterDelete;
             currentListId := newCurrentListId;
             rankingState := None;
             currentTab := currentTab state;
             currentView := currentView state |}
      end
  | LOAD_SHARED_LIST list newId =>
      let newList :=
        {| list_id := newId;
           list_name := list_name list;
           items := items list;
           status := status list;
           rankedData := rankedData list;
           unrankedItems := unrankedItems list;
           createdAt := createdAt list |} in
      {| lists := lists state ++ [newList];
         currentListId := Some (list_id newList);
         rankingState := rankingState state;
         currentTab := tab_current;
         currentView :=
           if is_ranked (status newList) then view_rankedResult
           else view_currentList |}
  end.

(** An action of either group, and the reducer on it. *)
Inductive AnyAction : Type :=
| RankingAction (action : Action)
| ListEdit (action : ListAction).

Definition appReducerAny (state : AppState) (action : AnyAction) : AppState :=
  match action with
  | RankingAction a => appReducer state a
  | ListEdit a => appReducerLists state a
  end.

(** The state after a sequence of dispatched actions. *)
Definition dispatchAll (state : AppState) (actions : list AnyAction)
  : AppState :=
  fold_left appReducerAny actions state.

(** ** Sharing payloads ([src/utils/urlEncoding.ts]) *)

Inductive PayloadType : Type :=
| payload_unranked
| payload_ranked.

(** [SharePayload = { type; name; items }]; the fields are prefixed since
    [type] is a keyword. *)
Record SharePayload : Type := mkSharePayload {
  payload_type : PayloadType;
  payload_name : string;
  payload_items : list string;
}.

(** [payload.items.map((text) => ({ id: generateId(), text }))], where
    [gen k] is what the [k]-th call of [generateId()] returns; the first
    item gets the result of call number [k]. *)
Fixpoint itemsFromTexts (gen : nat -> string) (k : nat)
  (texts : list string) : list ListItem :=
  match texts with
  | [] => []
  | text :: rest =>
      {| item_id := gen k; item_text := text |}
      :: itemsFromTexts gen (S k) rest
  end.

(** [createListFromPayload(payload)]: [generateId()] is called once per
    item and then once for the list; [now] is the value of
    [Date.now()]. *)
Definition createListFromPayload (gen : nat -> string) (now : Z)
  (payload : SharePayload) : RankList :=
  let newItems := itemsFromTexts gen 0 (payload_items payload) in
  {| list_id := gen (length newItems);
     list_name :=
       if truthy (payload_name payload) then payload_name payload
       else "Untitled List";
     items := newItems;
     status :=
       match payload_type payload with
       | payload_ranked => ranked
       | payload_unranked => unranked
       end;
     rankedData :=
       match payload_type payload with
       | payload_ranked =>
           Some {| itemIdsInOrder := map item_id newItems |}
       | payload_unranked => None
       end;
     unrankedItems := None;
     createdAt := now |}.

(** [list.items.find((i) => i.id === id)?.text || ''] *)
Definition textOfId (list : RankList) (ident : string) : string :=
  match List.find (fun i => String.eqb (item_id i) ident) (items list) with
  | Some item => item_text item
  | None => EmptyString
  end.

Definition createPayloadFromList (list : RankList) (type : PayloadType)
  : SharePayload :=
  let itemTexts :=
    match type, rankedData list with
    | payload_ranked, Some rd => map (textOfId list) (itemIdsInOrder rd)
    | _, _ => map item_text (items list)
    end in
  {| payload_type := type;
     payload_name := list_name list;
     payload_items := itemTexts |}.

(** ** Sessions: running the engine on a sequence of answers *)

(** [run s answers]: feed the answers to [processComparison] one by one;
    [None] as soon as a call returns [null]. *)
Fixpoint run (s : RankingState) (answers : list bool)
  : option RankingState :=
  match answers with
  | [] => Some s
  | b :: rest =>
      match processComparison s b with
      | None => None
      | Some s' => run s' rest
      end
  end.

(** The active session values: what an initializer returns, and every
    non-null result of [processComparison] on such a value. *)
Inductive Session : RankingState -> Prop :=
| Session_full items s :
    initializeRankingState items = Some s -> Session s
| Session_partial existingRankedIds newItems s :
    initializePartialRankingState existingRankedIds newItems = Some s ->
    Session s
| Session_step s chooseCandidate s' :
    Session s ->
    processComparison s chooseCandidate = Some s' ->
    Session s'.

(** The window invariant [0 <= low <= high <= length - 1]. *)
Definition window_ok (s : RankingState) : Prop :=
  0 <= low s /\ low s <= high s /\
  high s <= Z.of_nat (length (sortedListItemIds s)) - 1.

(** Number of positions in the window [low..high]. *)
Definition window_size (s : RankingState) : Z := high s - low s + 1.

(** All identifiers a session value holds: [ordered], [pending] and the
    candidate. *)
Definition held_ids (s : RankingState) : list string :=
  sortedListItemIds s ++ pendingItemIds s ++ [currentCandidateId s].

(** Conservation with respect to the identifiers supplied at
    initialization. *)
Definition conserved (original : list string) (s : RankingState) : Prop :=
  (held_ids s ≡ₚ original)
  /\ (length (sortedListItemIds s) + length (pendingItemIds s) + 1
      = length original)%nat
  /\ (currentCandidateId s ∉ sortedListItemIds s)
  /\ (currentCandidateId s ∉ pendingItemIds s).

(** ** Measures and answer policies for sessions *)

(** An upper bound on the number of answers a session value can still
    take: the positions left in the current window, plus for every pending
    identifier the largest window it can get
    ([ordered.length + pending.length] stays the same through insertions). *)
Definition session_measure (s : RankingState) : Z :=
  window_size s
  + Z.of_nat (length (pendingItemIds s))
    * Z.of_nat (length (sortedListItemIds s) + length (pendingItemIds s)).

(** The answer of a user whose preferences follow a score [rank] (a lower
    score is preferred): the pair shown is the one of
    [getCurrentComparison], and the candidate is chosen when it scores
    strictly lower than the reference. *)
Definition answer_by (rank : string -> Z) (s : RankingState) : bool :=
  match referenceId (getCurrentComparison s) with
  | Some reference =>
      rank (candidateId (getCurrentComparison s)) <? rank reference
  | None => false
  end.

(** Every answer of the sequence, as long as the session is active, is the
    one [answer_by rank] gives on the session value it is applied to. *)
Fixpoint answers_follow (rank : string -> Z) (s : RankingState)
  (answers : list bool) : Prop :=
  match answers with
  | [] => True
  | b :: rest =>
      b = answer_by rank s
      /\ match processComparison s b with
         | None => True
         | Some s' => answers_follow rank s' rest
         end
  end.

(** [l] lists identifiers by non-decreasing score, most preferred first. *)
Definition sorted_by (rank : string -> Z) (l : list string) : Prop :=
  forall (i j : nat) (x y : string),
    (i < j)%nat -> l !! i = Some x -> l !! j = Some y -> rank x <= rank y.

(** What the binary search knows about the candidate: [ordered] is sorted,
    everything left of the window scores at most the candidate, everything
    right of the window scores strictly more than the candidate. *)
Definition search_inv (rank : string -> Z) (s : RankingState) : Prop :=
  sorted_by rank (sortedListItemIds s)
  /\ (forall (i : nat) (x : string),
        Z.of_nat i < low s -> sortedListItemIds s !! i = Some x ->
        rank x <= rank (currentCandidateId s))
  /\ (forall (i : nat) (x : string),
        high s < Z.of_nat i -> sortedListItemIds s !! i = Some x ->
        rank (currentCandidateId s) < rank x).

(** A score used in examples: the code of the first character (so
    ["a"] is preferred to ["b"]). *)
Definition first_char_rank (ident : string) : Z :=
  match ident with
  | EmptyString => 0
  | String c _ => Z.of_N (Ascii.N_of_ascii c)
  end.

(** [createInitialState()], with the values of its [generateId()] and
    [Date.now()] calls. *)
Definition createInitialState (newId : string) (now : Z) : AppState :=
  {| lists := [emptyList newId now];
     currentListId := None;
     rankingState := None;
     currentTab := tab_current;
     currentView := view_currentList |}.

(** An application state used in examples: one unranked list of three
    items, which is the current list. *)
Definition exampleState : AppState :=
  {| lists := [ {| list_id := "list-1";
                   list_name := "Test List";
                   items := [mkListItem "a" "A"; mkListItem "b" "B";
                             mkListItem "c" "C"];
                   status := unranked;
                   rankedData := None;
                   unrankedItems := None;
                   createdAt := 0 |} ];
     currentListId := Some "list-1";
     rankingState := None;
     currentTab := tab_current;
     currentView := view_currentList |}.

(** The record update [{ ...state, rankingState: rs }]. *)
Definition with_rankingState (state : AppState) (rs : option RankingState)
  : AppState :=
  {| lists := lists state;
     currentListId := currentListId state;
     rankingState := rs;
     currentTab := currentTab state;
     currentView := currentView state |}.

(** ** Invariants of the application state *)

(** The session held by the application state, if any, is an active
    session value of the engine. *)
Definition session_ok (state : AppState) : Prop :=
  forall rs : RankingState, rankingState state = Some rs -> Session rs.

(** [currentListId], when set, is the id of one of the lists. *)
Definition current_valid (state : AppState) : Prop :=
  forall cur : string,
    currentListId state = Some cur ->
    exists l : RankList, l ∈ lists state /\ list_id l = cur.

(** ** The engine over a store of arrays *)

(** JavaScript arrays are objects held by reference: a state returned by
    the narrowing branch of [processComparison] shares its two arrays with
    the state it was computed from, and [splice] changes an array in
    place.  This second embedding of the engine keeps the arrays in a
    store, so that sharing and mutation are visible.  A store is the list
    of the arrays allocated so far; a reference is an index into it. *)
Abbreviation Heap := (list (list string)).

(** The array behind a reference. *)
Definition read (h : Heap) (ref : nat) : list string :=
  default [] (h !! ref).

(** A new array ([[...]], [a.map(f)], [a.slice(1)], [[...a]]): its
    reference and the store that holds it. *)
Definition alloc (h : Heap) (a : list string) : nat * Heap :=
  (length h, h ++ [a]).

(** An array changed in place. *)
Definition write (h : Heap) (ref : nat) (a : list string) : Heap :=
  <[ref := a]> h.

(** A [RankingState] object: its arrays are references. *)
Record RankingStateRef : Type := mkRankingStateRef {
  sortedListItemIdsRef : nat;
  pendingItemIdsRef : nat;
  currentCandidateIdOf : string;
  lowOf : Z;
  highOf : Z;
  modeOf : option RankingMode;
}.

(** The value a state object has in a store. *)
Definition deref (h : Heap) (st : RankingStateRef) : RankingState :=
  {| sortedListItemIds := read h (sortedListItemIdsRef st);
     pendingItemIds := read h (pendingItemIdsRef st);
     currentCandidateId := currentCandidateIdOf st;
     low := lowOf st;
     high := highOf st;
     mode := modeOf st |}.

(** The arrays of a state object exist in the store. *)
Definition valid_in (h : Heap) (st : RankingStateRef) : Prop :=
  (sortedListItemIdsRef st < length h)%nat
  /\ (pendingItemIdsRef st < length h)%nat.

(** [initializeRankingState]: [items] is only read; [items.map],
    the literal [[itemIds[0]]] and [itemIds.slice(1)] each make a new
    array. *)
Definition initializeRankingState_h (h : Heap) (items : list ListItem)
  : option RankingStateRef * Heap :=
  if (length items <? 2)%nat then (None, h)
  else
    let '(itemIds, h1) := alloc h (map item_id items) in
    let '(sortedList, h2) := alloc h1 [at_index (read h1 itemIds) 0] in
    let '(pendingItems, h3) := alloc h2 (slice1 (read h2 itemIds)) in
    (Some {| sortedListItemIdsRef := sortedList;
             pendingItemIdsRef := pendingItems;
             currentCandidateIdOf := at_index (read h3 itemIds) 1;
             lowOf := 0;
             highOf := 0;
             modeOf := Some full |},
     h3).

(** [processComparison]: [[...sortedListItemIds]] makes a copy, [splice]
    changes that copy in place (the empty array of removed elements it
    returns is dropped and not allocated here),
    [pendingItemIds.slice(1)] makes a new array; the narrowing branch
    returns the references it was given. *)
Definition processComparison_h (h : Heap) (state : RankingStateRef)
  (chooseCandidate : bool) : option RankingStateRef * Heap :=
  let mid := (lowOf state + highOf state) / 2 in
  let newLow := if chooseCandidate then lowOf state else mid + 1 in
  let newHigh := if chooseCandidate then mid - 1 else highOf state in
  if newLow >? newHigh then
    let '(newSortedList, h1) :=
      alloc h (read h (sortedListItemIdsRef state)) in
    let h2 :=
      write h1 newSortedList
        (splice_insert newLow (currentCandidateIdOf state)
           (read h1 newSortedList)) in
    let '(newPendingItems, h3) :=
      alloc h2 (slice1 (read h2 (pendingItemIdsRef state))) in
    if (length (read h3 newPendingItems) =? 0)%nat then (None, h3)
    else
      (Some {| sortedListItemIdsRef := newSortedList;
               pendingItemIdsRef := newPendingItems;
               currentCandidateIdOf :=
                 at_index (read h3 (pendingItemIdsRef state)) 0;
               lowOf := 0;
               highOf := Z.of_nat (length (read h3 newSortedList)) - 1;
               modeOf := modeOf state |},
       h3)
  else
    (Some {| sortedListItemIdsRef := sortedListItemIdsRef state;
             pendingItemIdsRef := pendingItemIdsRef state;
             currentCandidateIdOf := currentCandidateIdOf state;
             lowOf := newLow;
             highOf := newHigh;
             modeOf := modeOf state |},
     h).

(** A caller that feeds the answers one by one, as the reducer does on
    [MAKE_COMPARISON]: it keeps every state object it was given, and when
    [processComparison] returns [null] it takes as final order
    [state.rankingState.sortedListItemIds], read after the call, and
    ignores the answers left.  The result is the state objects in the
    order they were held, the final order if the session completed, and
    the store at the end. *)
Fixpoint run_h (h : Heap) (st : RankingStateRef) (answers : list bool)
  : list RankingStateRef * option (list string) * Heap :=
  match answers with
  | [] => ([st], None, h)
  | b :: rest =>
      match processComparison_h h st b with
      | (None, h') => ([st], Some (read h' (sortedListItemIdsRef st)), h')
      | (Some st', h') =>
          let '(held, final, hf) := run_h h' st' rest in
          (st :: held, final, hf)
      end
  end.

(** A replay: [initializeRankingState] on the items, then the answers.
    The states are given by the values they have in the store at the end
    of the replay. *)
Definition replay_h (h : Heap) (items : list ListItem)
  (answers : list bool)
  : list RankingState * option (list string) * Heap :=
  match initializeRankingState_h h items with
  | (None, h') => ([], None, h')
  | (Some st, h') =>
      let '(held, final, hf) := run_h h' st answers in
      (map (deref hf) held, final, hf)
  end.

Definition replay_states (h : Heap) (items : list ListItem)
  (answers : list bool) : list RankingState :=
  (replay_h h items answers).1.1.

Definition replay_final (h : Heap) (items : list ListItem)
  (answers : list bool) : option (list string) :=
  (replay_h h items answers).1.2.

Definition replay_store (h : Heap) (items : list ListItem)
  (answers : list bool) : Heap :=
  (replay_h h items answers).2.

(** The same caller on session values: the values held and the final
    order. *)
Fixpoint session_trace (s : RankingState) (answers : list bool)
  : list RankingState * option (list string) :=
  match answers with
  | [] => ([s], None)
  | b :: rest =>
      match processComparison s b with
      | None => ([s], Some (sortedListItemIds s))
      | Some s' =>
          let '(held, final) := session_trace s' rest in
          (s :: held, final)
      end
  end.

(** * Properties *)

(** ** The array primitives *)

Lemma splice_insert_split (start : Z) (x : string) (a : list string) :
  exists n : nat,
    (n <= length a)%nat /\
    splice_insert start x a = take n a ++ x :: drop n a.
Proof.
  unfold splice_insert.
  destruct (start <? 0) eqn:Hneg;
    eexists; (split; [ | reflexivity ]); lia.
Qed.

Lemma splice_insert_in_range (start : Z) (x : string) (a : list string) :
  0 <= start <= Z.of_nat (length a) ->
  splice_insert start x a
  = take (Z.to_nat start) a ++ x :: drop (Z.to_nat start) a.
Proof.
  intros Hr. unfold splice_insert.
  destruct (start <? 0) eqn:Hneg; [ lia | ].
  rewrite Z.min_l by lia. reflexivity.
Qed.

Lemma splice_insert_length (start : Z) (x : string) (a : list string) :
  length (splice_insert start x a) = S (length a).
Proof.
  destruct (splice_insert_split start x a) as (n & Hn & ->).
  rewrite length_app, length_take. cbn [length]. rewrite length_drop. lia.
Qed.

Lemma splice_insert_perm (start : Z) (x : string) (a : list string) :
  splice_insert start x a ≡ₚ x :: a.
Proof.
  destruct (splice_insert_split start x a) as (n & _ & ->).
  rewrite <- Permutation_middle. by rewrite take_drop.
Qed.

Lemma splice_insert_sublist (start : Z) (x : string) (a : list string) :
  a `sublist_of` splice_insert start x a.
Proof.
  destruct (splice_insert_split start x a) as (n & _ & ->).
  rewrite <- (take_drop n a) at 1.
  apply sublist_app; [ done | by apply sublist_cons ].
Qed.

(** [splice] in range puts [x] at index [start], keeps what was before it
    and shifts what was at or after it one place to the right. *)
Lemma splice_insert_lookup (start : Z) (x : string) (a : list string) :
  0 <= start <= Z.of_nat (length a) ->
  splice_insert start x a !! Z.to_nat start = Some x
  /\ (forall i : nat, (i < Z.to_nat start)%nat ->
        splice_insert start x a !! i = a !! i)
  /\ (forall i : nat, (Z.to_nat start <= i)%nat ->
        splice_insert start x a !! S i = a !! i).
Proof.
  intros Hr. rewrite splice_insert_in_range by done.
  set (n := Z.to_nat start).
  assert (Hn : (n <= length a)%nat) by lia.
  assert (Hlen : length (take n a) = n) by (rewrite length_take; lia).
  repeat split.
  - rewrite lookup_app_r by lia. by rewrite Hlen, Nat.sub_diag.
  - intros i Hi. rewrite lookup_app_l by lia. by rewrite lookup_take_lt.
  - intros i Hi. rewrite lookup_app_r by lia.
    rewrite Hlen. replace (S i - n)%nat with (S (i - n)) by lia.
    rewrite <- lookup_tail. cbn [tail]. rewrite lookup_drop. f_equal. lia.
Qed.

(** ** The engine never reads [undefined] *)

(** The same definition by cases on the list of items: the guard
    [items.length < 2] keeps [itemIds[0]] and [itemIds[1]] in range. *)
Lemma initializeRankingState_reads (items : list ListItem) :
  initializeRankingState items =
  match items with
  | i0 :: i1 :: rest =>
      Some {| sortedListItemIds := [item_id i0];
              pendingItemIds := item_id i1 :: map item_id rest;
              currentCandidateId := item_id i1;
              low := 0;
              high := 0;
              mode := Some full |}
  | _ => None
  end.
Proof. by destruct items as [ | i0 [ | i1 rest ] ]. Qed.

Lemma initializePartialRankingState_reads
  (existingRankedIds : list string) (newItems : list ListItem) :
  initializePartialRankingState existingRankedIds newItems =
  match newItems, existingRankedIds with
  | [], _ => None
  | _ :: _, [] => initializeRankingState newItems
  | n0 :: rest, _ :: _ =>
      Some {| sortedListItemIds := existingRankedIds;
              pendingItemIds := map item_id rest;
              currentCandidateId := item_id n0;
              low := 0;
              high := Z.of_nat (length existingRankedIds) - 1;
              mode := Some partial |}
  end.
Proof. by destruct newItems, existingRankedIds. Qed.

(** [pendingItemIds[0]] is read only when [pendingItemIds.slice(1)] is not
    empty: whenever a call inserts and returns a session, [pendingItemIds]
    has at least two elements, its first becomes the candidate and the rest
    stays pending. *)
Lemma processComparison_reads (s s' : RankingState) (b : bool) :
  processComparison s b = Some s' ->
  sortedListItemIds s' <> sortedListItemIds s ->
  exists p0 p1 rest,
    pendingItemIds s = p0 :: p1 :: rest
    /\ currentCandidateId s' = p0
    /\ pendingItemIds s' = p1 :: rest.
Proof.
  unfold processComparison.
  destruct (_ >? _).
  - destruct (pendingItemIds s) as [ | p0 [ | p1 rest ] ] eqn:Hp;
      cbn; try discriminate.
    intros [= <-] _. cbn. by exists p0, p1, rest.
  - intros [= <-]. cbn. congruence.
Qed.

(** ** Arithmetic of the midpoint *)

Lemma mid_between (lo hi : Z) :
  lo <= hi -> lo <= (lo + hi) / 2 <= hi.
Proof.
  intros H.
  split; [ apply Z.div_le_lower_bound | apply Z.div_le_upper_bound ]; lia.
Qed.

(** On an empty window both answers leave the window empty. *)
Lemma mid_empty_window (lo hi : Z) :
  hi < lo -> (lo + hi) / 2 - 1 < lo /\ hi < (lo + hi) / 2 + 1.
Proof.
  intros H.
  assert (hi <= (lo + hi) / 2) by (apply Z.div_le_lower_bound; lia).
  assert ((lo + hi) / 2 <= lo) by (apply Z.div_le_upper_bound; lia).
  lia.
Qed.

(** ** The two outcomes of [processComparison] *)

(** The bounds after narrowing, as the code computes them. *)
Lemma processComparison_cases (s : RankingState) (b : bool) :
  let mid := (low s + high s) / 2 in
  let newLow := if b then low s else mid + 1 in
  let newHigh := if b then mid - 1 else high s in
  (newLow <= newHigh /\
   processComparison s b =
   Some {| sortedListItemIds := sortedListItemIds s;
           pendingItemIds := pendingItemIds s;
           currentCandidateId := currentCandidateId s;
           low := newLow;
           high := newHigh;
           mode := mode s |})
  \/
  (newLow > newHigh /\
   processComparison s b =
   match pendingItemIds s with
   | p0 :: p1 :: rest =>
       Some {| sortedListItemIds :=
                 splice_insert newLow (currentCandidateId s)
                   (sortedListItemIds s);
               pendingItemIds := p1 :: rest;
               currentCandidateId := p0;
               low := 0;
               high := Z.of_nat (length (sortedListItemIds s));
               mode := mode s |}
   | _ => None
   end).
Proof.
  intros mid newLow newHigh. unfold processComparison.
  fold mid. fold newLow. fold newHigh.
  destruct (newLow >? newHigh) eqn:Hcmp.
  - right. split; [ lia | ].
    destruct (pendingItemIds s) as [ | p0 [ | p1 rest ] ]; cbn; try done.
    rewrite splice_insert_length. do 2 f_equal. lia.
  - left. split; [ lia | done ].
Qed.

(** ** Window invariant *)

Lemma initializeRankingState_window (items : list ListItem)
  (s : RankingState) :
  initializeRankingState items = Some s -> window_ok s.
Proof.
  rewrite initializeRankingState_reads.
  destruct items as [ | i0 [ | i1 rest ] ]; try discriminate.
  intros [= <-]. unfold window_ok. cbn. lia.
Qed.

Lemma initializePartialRankingState_window
  (existingRankedIds : list string) (newItems : list ListItem)
  (s : RankingState) :
  initializePartialRankingState existingRankedIds newItems = Some s ->
  window_ok s.
Proof.
  rewrite initializePartialRankingState_reads.
  destruct newItems as [ | n0 rest ]; [ discriminate | ].
  destruct existingRankedIds as [ | e0 existing ].
  - apply initializeRankingState_window.
  - intros [= <-]. unfold window_ok. cbn [low high sortedListItemIds length].
    lia.
Qed.

Lemma processComparison_window (s s' : RankingState) (b : bool) :
  window_ok s -> processComparison s b = Some s' -> window_ok s'.
Proof.
  intros (Hlo & Hlh & Hhi) Hstep.
  pose proof (mid_between _ _ Hlh) as Hmid.
  destruct (processComparison_cases s b) as [ [Hle Heq] | [Hgt Heq] ];
    rewrite Heq in Hstep.
  - injection Hstep as <-. unfold window_ok. cbn.
    destruct b; lia.
  - destruct (pendingItemIds s) as [ | p0 [ | p1 rest ] ]; try discriminate.
    injection Hstep as <-. unfold window_ok. cbn.
    rewrite splice_insert_length. lia.
Qed.

Lemma Session_window (s : RankingState) : Session s -> window_ok s.
Proof.
  induction 1 as [ items s Hinit | existing newItems s Hinit
                 | s b s' _ IH Hstep ].
  - eauto using initializeRankingState_window.
  - eauto using initializePartialRankingState_window.
  - eauto using processComparison_window.
Qed.

Lemma run_Session (s0 s : RankingState) (answers : list bool) :
  Session s0 -> run s0 answers = Some s -> Session s.
Proof.
  revert s0. induction answers as [ | b rest IH ]; intros s0 Hs0; cbn.
  - by intros [= <-].
  - destruct (processComparison s0 b) as [ s1 | ] eqn:Hstep; [ | done ].
    apply IH. by eapply Session_step.
Qed.

(** ** Insertion keeps every identifier and the order of the others *)

Lemma processComparison_held_ids (s s' : RankingState) (b : bool) :
  processComparison s b = Some s' -> held_ids s' ≡ₚ held_ids s.
Proof.
  intros Hstep.
  destruct (processComparison_cases s b) as [ [_ Heq] | [_ Heq] ];
    rewrite Heq in Hstep.
  - by injection Hstep as <-.
  - unfold held_ids.
    destruct (pendingItemIds s) as [ | p0 [ | p1 rest ] ]; try discriminate.
    injection Hstep as <-. cbn [sortedListItemIds pendingItemIds
                                 currentCandidateId].
    rewrite splice_insert_perm.
    rewrite (Permutation_app_comm (p1 :: rest) [p0]).
    rewrite (Permutation_app_comm (p0 :: p1 :: rest) [currentCandidateId s]).
    cbn [app].
    by rewrite Permutation_middle.
Qed.

Lemma processComparison_sublist (s s' : RankingState) (b : bool) :
  processComparison s b = Some s' ->
  sortedListItemIds s `sublist_of` sortedListItemIds s'.
Proof.
  intros Hstep.
  destruct (processComparison_cases s b) as [ [_ Heq] | [_ Heq] ];
    rewrite Heq in Hstep.
  - by injection Hstep as <-.
  - destruct (pendingItemIds s) as [ | p0 [ | p1 rest ] ]; try discriminate.
    injection Hstep as <-. apply splice_insert_sublist.
Qed.

Lemma run_sublist (s0 s : RankingState) (answers : list bool) :
  run s0 answers = Some s ->
  sortedListItemIds s0 `sublist_of` sortedListItemIds s.
Proof.
  revert s0. induction answers as [ | b rest IH ]; intros s0; cbn.
  - by intros [= <-].
  - destruct (processComparison s0 b) as [ s1 | ] eqn:Hstep; [ | done ].
    intros Hrun. etrans; [ | by apply IH ].
    by eapply processComparison_sublist.
Qed.

(** ** Claims *)

(** C5 (window narrowing step).  [processComparison] takes
    [mid = floor((low + high) / 2)]; on "candidate preferred" the new bounds
    are [low] and [mid - 1], otherwise [mid + 1] and [high]; when the
    narrowed window is not empty the call returns a session with exactly
    these bounds and the same candidate, [ordered], [pending] and mode. *)
Theorem window_narrowing_step (s : RankingState) (candidatePreferred : bool) :
  let mid := (low s + high s) / 2 in
  let newLow := if candidatePreferred then low s else mid + 1 in
  let newHigh := if candidatePreferred then mid - 1 else high s in
  newLow <= newHigh ->
  processComparison s candidatePreferred =
  Some {| sortedListItemIds := sortedListItemIds s;
          pendingItemIds := pendingItemIds s;
          currentCandidateId := currentCandidateId s;
          low := newLow;
          high := newHigh;
          mode := mode s |}.
Proof.
  intros mid newLow newHigh Hle.
  destruct (processComparison_cases s candidatePreferred)
    as [ [_ Heq] | [Hgt _] ]; [ exact Heq | ].
  fold mid in Hgt. fold newLow in Hgt. fold newHigh in Hgt. lia.
Qed.

Lemma window_narrowing_step_witness :
  let s := {| sortedListItemIds := ["a"; "b"; "c"; "d"];
              pendingItemIds := [];
              currentCandidateId := "x";
              low := 0;
              high := 3;
              mode := Some full |} in
  processComparison s false =
  Some {| sortedListItemIds := ["a"; "b"; "c"; "d"];
          pendingItemIds := [];
          currentCandidateId := "x";
          low := 2;
          high := 3;
          mode := Some full |}.
Proof.
  intros s. apply (window_narrowing_step s false). vm_compute. discriminate.
Defined.

(** C7 (monotonic narrowing), at [initializeRankingState([a, b, c])] and
    the answer "candidate preferred": the call places [b] and returns a
    session whose candidate is [b] again, now also in [ordered], with the
    window [0..1] where it was [0..0]: the window has widened for the same
    candidate.  The next call, whatever the answer, returns [null]: the
    placement ends with no list returned that has the candidate
    inserted. *)
Theorem window_widens_for_same_candidate :
  exists s0 s1 : RankingState,
    initializeRankingState
      [mkListItem "a" "A"; mkListItem "b" "B"; mkListItem "c" "C"]
    = Some s0
    /\ processComparison s0 true = Some s1
    /\ currentCandidateId s0 = "b"
    /\ currentCandidateId s1 = "b"
    /\ (low s0 = 0 /\ high s0 = 0 /\ window_size s0 = 1)
    /\ (low s1 = 0 /\ high s1 = 1 /\ window_size s1 = 2)
    /\ sortedListItemIds s1 = ["b"; "a"]
    /\ currentCandidateId s1 ∈ sortedListItemIds s1
    /\ pendingItemIds s1 = ["c"]
    /\ processComparison s1 true = None
    /\ (forall s2 : RankingState,
          processComparison s1 false = Some s2 ->
          processComparison s2 true = None
          /\ processComparison s2 false = None).
Proof.
  eexists _, _.
  repeat (split;
          [ reflexivity || (repeat split; reflexivity)
            || apply list_elem_of_here | ]).
  intros s2 [= <-]. by split.
Qed.

(** C6 (partial-mode order preservation).  In every session value reached
    from [initializePartialRankingState existingOrder newItems] with a
    non-empty [existingOrder], [existingOrder] is a subsequence of
    [ordered]: its elements are all there, in their original relative
    order, with the inserted candidates between them. *)
Theorem partial_order_preserved
  (existingOrder : list string) (newItems : list ListItem)
  (s0 s : RankingState) (answers : list bool) :
  existingOrder <> [] ->
  initializePartialRankingState existingOrder newItems = Some s0 ->
  run s0 answers = Some s ->
  existingOrder `sublist_of` sortedListItemIds s.
Proof.
  intros Hne Hinit Hrun.
  apply run_sublist in Hrun.
  rewrite initializePartialRankingState_reads in Hinit.
  destruct newItems as [ | n0 rest ]; [ discriminate | ].
  destruct existingOrder as [ | e0 existing ]; [ done | ].
  by injection Hinit as <-.
Qed.

Lemma partial_order_preserved_witness :
  ["a"; "b"] `sublist_of` ["a"; "c"; "b"].
Proof.
  apply (partial_order_preserved ["a"; "b"]
           [mkListItem "c" "C"; mkListItem "d" "D"; mkListItem "e" "E"]
           {| sortedListItemIds := ["a"; "b"];
              pendingItemIds := ["d"; "e"];
              currentCandidateId := "c";
              low := 0;
              high := 1;
              mode := Some partial |}
           {| sortedListItemIds := ["a"; "c"; "b"];
              pendingItemIds := ["e"];
              currentCandidateId := "d";
              low := 2;
              high := 2;
              mode := Some partial |}
           [false; true; false]).
  - discriminate.
  - reflexivity.
  - vm_compute. reflexivity.
Defined.

(** *** The store: what a call reads and what it leaves alone *)

Lemma read_alloc (h : Heap) (a : list string) :
  read (h ++ [a]) (length h) = a.
Proof.
  unfold read. rewrite lookup_app_r by lia. by rewrite Nat.sub_diag.
Qed.

Lemma read_prefix (h h' : Heap) (ref : nat) :
  h `prefix_of` h' -> (ref < length h)%nat -> read h' ref = read h ref.
Proof.
  intros [k ->] Hlt. unfold read. by rewrite lookup_app_l.
Qed.

Lemma write_alloc (h : Heap) (a b : list string) :
  write (h ++ [a]) (length h) b = h ++ [b].
Proof.
  unfold write. rewrite insert_app_r_alt by lia. by rewrite Nat.sub_diag.
Qed.

Lemma deref_prefix (h h' : Heap) (st : RankingStateRef) :
  h `prefix_of` h' -> valid_in h st ->
  deref h' st = deref h st /\ valid_in h' st.
Proof.
  intros Hpre (Hs & Hp). split.
  - unfold deref. by rewrite !(read_prefix h h').
  - apply prefix_length in Hpre. unfold valid_in. lia.
Qed.

(** A call of [processComparison] changes no array that existed before it
    (the store only grows), returns a state object whose value is what the
    function on values returns, and whose arrays exist. *)
Lemma processComparison_h_sound (h : Heap) (st : RankingStateRef)
  (b : bool) :
  valid_in h st ->
  h `prefix_of` (processComparison_h h st b).2
  /\ option_map (deref (processComparison_h h st b).2)
       (processComparison_h h st b).1
     = processComparison (deref h st) b
  /\ match (processComparison_h h st b).1 with
     | Some st' => valid_in (processComparison_h h st b).2 st'
     | None => True
     end.
Proof.
  intros (Hs & Hp).
  unfold processComparison_h, processComparison, alloc.
  cbn [deref low high sortedListItemIds pendingItemIds currentCandidateId
         mode].
  destruct (_ >? _).
  - rewrite (read_alloc h), write_alloc.
    set (sorted := read h (sortedListItemIdsRef st)).
    set (spliced := splice_insert _ _ sorted).
    assert (Hpre : h `prefix_of` h ++ [spliced]) by apply prefix_app_r, reflexivity.
    rewrite (read_prefix h (h ++ [spliced])) by done.
    set (pending := read h (pendingItemIdsRef st)).
    assert (Hpre' : h `prefix_of` (h ++ [spliced]) ++ [slice1 pending]).
    { rewrite <- app_assoc. by apply prefix_app_r. }
    rewrite read_alloc.
    rewrite (read_prefix h _ (pendingItemIdsRef st)) by done.
    fold pending.
    assert (Hnew : read ((h ++ [spliced]) ++ [slice1 pending]) (length h)
                   = spliced).
    { rewrite (read_prefix (h ++ [spliced])).
      - apply read_alloc.
      - by apply prefix_app_r.
      - rewrite length_app. cbn. lia. }
    destruct (length (slice1 pending) =? 0)%nat; cbn [fst snd option_map].
    + done.
    + split; [ done | ]. split.
      * unfold deref.
        cbn [sortedListItemIdsRef pendingItemIdsRef currentCandidateIdOf
               lowOf highOf modeOf].
        by rewrite Hnew, read_alloc.
      * unfold valid_in. cbn [sortedListItemIdsRef pendingItemIdsRef].
        rewrite !length_app. cbn. lia.
  - cbn [fst snd option_map]. done.
Qed.

Lemma initializeRankingState_h_sound (h : Heap) (items : list ListItem) :
  h `prefix_of` (initializeRankingState_h h items).2
  /\ option_map (deref (initializeRankingState_h h items).2)
       (initializeRankingState_h h items).1
     = initializeRankingState items
  /\ match (initializeRankingState_h h items).1 with
     | Some st => valid_in (initializeRankingState_h h items).2 st
     | None => True
     end.
Proof.
  unfold initializeRankingState_h, initializeRankingState, alloc.
  destruct (_ <? 2)%nat; cbn [fst snd option_map]; [ done | ].
  set (ids := map item_id items).
  assert (H1 : read (h ++ [ids]) (length h) = ids) by apply read_alloc.
  assert (H2 : read ((h ++ [ids]) ++ [[at_index ids 0]]) (length h) = ids).
  { rewrite (read_prefix (h ++ [ids])); [ done | by apply prefix_app_r | ].
    rewrite length_app. cbn. lia. }
  assert (H3 : read (((h ++ [ids]) ++ [[at_index ids 0]])
                     ++ [slice1 ids]) (length h) = ids).
  { rewrite (read_prefix ((h ++ [ids]) ++ [[at_index ids 0]]));
      [ done | by apply prefix_app_r | ].
    rewrite !length_app. cbn. lia. }
  rewrite H1, H2, H3. split; [ | split ].
  - rewrite <- !app_assoc. by apply prefix_app_r.
  - unfold deref.
    cbn [sortedListItemIdsRef pendingItemIdsRef currentCandidateIdOf
           lowOf highOf modeOf].
    rewrite read_alloc.
    rewrite (read_prefix ((h ++ [ids]) ++ [[at_index ids 0]]));
      [ | by apply prefix_app_r | rewrite !length_app; cbn; lia ].
    by rewrite read_alloc.
  - unfold valid_in. cbn [sortedListItemIdsRef pendingItemIdsRef].
    rewrite !length_app. cbn. lia.
Qed.

(** The caller of [run_h] sees, at the end, the values and the final
    order that the function on values gives, and every array it started
    with unchanged. *)
Lemma run_h_sound (answers : list bool) (h : Heap)
  (st : RankingStateRef) :
  valid_in h st ->
  h `prefix_of` (run_h h st answers).2
  /\ (map (deref (run_h h st answers).2) (run_h h st answers).1.1,
      (run_h h st answers).1.2)
     = session_trace (deref h st) answers.
Proof.
  revert h st. induction answers as [ | b rest IH ]; intros h st Hvalid.
  - done.
  - cbn [run_h session_trace].
    destruct (processComparison_h_sound h st b Hvalid)
      as (Hpre & Hsim & Hnext).
    destruct (processComparison_h h st b) as [ [ st' | ] h' ];
      cbn [fst snd option_map] in *; rewrite <- Hsim.
    + destruct (IH h' st' Hnext) as (Hpre' & Htrace).
      destruct (run_h h' st' rest) as [ [ held final ] hf ];
        cbn [fst snd] in *.
      assert (Hpre'' : h `prefix_of` hf) by (by etrans).
      split; [ done | ].
      destruct (session_trace (deref h' st') rest) as [ held' final' ].
      injection Htrace as <- <-. cbn [map].
      by rewrite (proj1 (deref_prefix h hf st Hpre'' Hvalid)).
    + split; [ done | ]. cbn [map].
      rewrite (proj1 (deref_prefix h h' st Hpre Hvalid)).
      destruct Hvalid as (Hs & _).
      by rewrite (read_prefix h h').
Qed.

(** What a replay gives, whatever the store it starts in. *)
Lemma replay_h_sound (h : Heap) (items : list ListItem)
  (answers : list bool) :
  h `prefix_of` replay_store h items answers
  /\ (replay_states h items answers, replay_final h items answers)
     = match initializeRankingState items with
       | None => ([], None)
       | Some s => session_trace s answers
       end.
Proof.
  unfold replay_store, replay_states, replay_final, replay_h.
  destruct (initializeRankingState_h_sound h items)
    as (Hpre & Hsim & Hvalid).
  destruct (initializeRankingState_h h items) as [ [ st | ] h' ];
    cbn [fst snd option_map] in *; rewrite <- Hsim.
  - destruct (run_h_sound answers h' st Hvalid) as (Hpre' & Htrace).
    destruct (run_h h' st answers) as [ [ held final ] hf ];
      cbn [fst snd] in *.
    split; [ by etrans | done ].
  - done.
Qed.

(** C8 (determinism).  Two replays of [initializeRankingState] on the same
    items followed by the same answers, in whatever stores they start (the
    second one, say, in the store the first one left), hold the same
    session values at every step and end with the same final order, and a
    replay changes no array that existed before it; these values and
    this final order are the ones the engine on values gives.  Call by
    call, the engine is a function of its inputs and nothing else: on two
    state objects with the same value, in any two stores,
    [processComparison] returns the same value (or [null] in both), the
    one the function on values returns, and it changes no array that
    existed before the call.  The model is the engine over a store of
    arrays, where [splice] changes an array in place and a returned state
    may share arrays with an earlier one. *)
Theorem replay_deterministic (h1 h2 : Heap) (items : list ListItem)
  (answers : list bool) :
  replay_states h1 items answers = replay_states h2 items answers
  /\ replay_final h1 items answers = replay_final h2 items answers
  /\ h1 `prefix_of` replay_store h1 items answers
  /\ replay_states (replay_store h1 items answers) items answers
     = replay_states h1 items answers
  /\ replay_final (replay_store h1 items answers) items answers
     = replay_final h1 items answers
  /\ (replay_states h1 items answers, replay_final h1 items answers)
     = match initializeRankingState items with
       | None => ([], None)
       | Some s => session_trace s answers
       end
  /\ forall (st1 st2 : RankingStateRef) (b : bool),
       valid_in h1 st1 ->
       valid_in h2 st2 ->
       deref h1 st1 = deref h2 st2 ->
       option_map (deref (processComparison_h h1 st1 b).2)
         (processComparison_h h1 st1 b).1
       = option_map (deref (processComparison_h h2 st2 b).2)
           (processComparison_h h2 st2 b).1
       /\ option_map (deref (processComparison_h h1 st1 b).2)
            (processComparison_h h1 st1 b).1
          = processComparison (deref h1 st1) b
       /\ h1 `prefix_of` (processComparison_h h1 st1 b).2
       /\ h2 `prefix_of` (processComparison_h h2 st2 b).2.
Proof.
  destruct (replay_h_sound h1 items answers) as (Hpre1 & Heq1).
  destruct (replay_h_sound h2 items answers) as (_ & Heq2).
  destruct (replay_h_sound (replay_store h1 items answers) items answers)
    as (_ & Heq3).
  rewrite <- Heq1 in Heq2, Heq3.
  injection Heq2 as Hs2 Hf2. injection Heq3 as Hs3 Hf3.
  repeat split; try done.
  - destruct (processComparison_h_sound h1 st1 b) as (_ & -> & _);
      [ done | ].
    destruct (processComparison_h_sound h2 st2 b) as (_ & -> & _);
      [ done | ].
    congruence.
  - by destruct (processComparison_h_sound h1 st1 b) as (_ & Hsim & _).
  - by destruct (processComparison_h_sound h1 st1 b) as (Hp & _).
  - by destruct (processComparison_h_sound h2 st2 b) as (Hp & _).
Qed.

(** C9 (bounds safety).  Every active session value (returned by an
    initializer or by [processComparison] on an active session value)
    satisfies [0 <= low <= high <= length - 1]; so [mid] is an index into
    [sortedListItemIds], and the [referenceId] of [getCurrentComparison] is
    the element at that index, never [undefined]. *)
Theorem bounds_safety (s : RankingState) :
  Session s ->
  let len := Z.of_nat (length (sortedListItemIds s)) in
  let mid := (low s + high s) / 2 in
  (0 <= low s /\ low s <= high s /\ high s <= len - 1)
  /\ (0 <= mid /\ mid <= len - 1)
  /\ exists r : string,
       referenceId (getCurrentComparison s) = Some r
       /\ sortedListItemIds s !! Z.to_nat mid = Some r
       /\ r ∈ sortedListItemIds s.
Proof.
  intros Hs len mid.
  pose proof (Session_window s Hs) as (Hlo & Hlh & Hhi). fold len in Hhi.
  pose proof (mid_between _ _ Hlh) as Hmid. fold mid in Hmid.
  split; [ done | ]. split; [ lia | ].
  destruct (lookup_lt_is_Some_2 (sortedListItemIds s) (Z.to_nat mid))
    as [r Hr]; [ lia | ].
  exists r. repeat split.
  - unfold getCurrentComparison, js_index. cbn [referenceId]. fold mid.
    destruct (mid <? 0) eqn:Hneg; [ lia | done ].
  - done.
  - by eapply list_elem_of_lookup_2.
Qed.

Lemma bounds_safety_witness :
  let s := {| sortedListItemIds := ["b"; "a"];
              pendingItemIds := ["d"];
              currentCandidateId := "c";
              low := 0;
              high := 1;
              mode := Some partial |} in
  (0 <= low s /\ low s <= high s /\ high s <= 2 - 1)
  /\ (0 <= 0 /\ 0 <= 2 - 1)
  /\ exists r : string,
       referenceId (getCurrentComparison s) = Some r
       /\ sortedListItemIds s !! 0%nat = Some r
       /\ r ∈ sortedListItemIds s.
Proof.
  intros s.
  apply (bounds_safety s).
  apply (Session_step
           {| sortedListItemIds := ["a"];
              pendingItemIds := ["c"; "d"];
              currentCandidateId := "b";
              low := 0;
              high := 0;
              mode := Some partial |} true).
  - apply (Session_partial ["a"]
             [mkListItem "b" "B"; mkListItem "c" "C"; mkListItem "d" "D"]).
    reflexivity.
  - reflexivity.
Defined.

(** C10 (reducer on completion).  When [MAKE_COMPARISON] is dispatched on a
    state holding a session [rs] and [processComparison] returns [null],
    the new state has no session, shows the ranked result, and every list
    whose id is [currentListId] is marked [ranked], has its
    [unrankedItems] cleared and gets as [rankedData.itemIdsInOrder] the
    [sortedListItemIds] of [rs], the session value as it was before this
    comparison; the other lists, the list count, the current list and the
    tab are unchanged. *)
Theorem MAKE_COMPARISON_completion
  (state : AppState) (rs : RankingState) (chooseCandidate : bool) :
  rankingState state = Some rs ->
  processComparison rs chooseCandidate = None ->
  let state' := appReducer state (MAKE_COMPARISON chooseCandidate) in
  rankingState state' = None
  /\ currentView state' = view_rankedResult
  /\ currentListId state' = currentListId state
  /\ currentTab state' = currentTab state
  /\ length (lists state') = length (lists state)
  /\ forall (i : nat) (l : RankList),
       lists state !! i = Some l ->
       exists l',
         lists state' !! i = Some l'
         /\ if is_current state l then
              status l' = ranked
              /\ rankedData l'
                 = Some {| itemIdsInOrder := sortedListItemIds rs |}
              /\ unrankedItems l' = None
              /\ list_id l' = list_id l
              /\ list_name l' = list_name l
              /\ items l' = items l
              /\ createdAt l' = createdAt l
            else l' = l.
Proof.
  intros Hrs Hnull state'. subst state'.
  cbn [appReducer]. rewrite Hrs, Hnull.
  cbn [rankingState currentView currentListId currentTab lists].
  repeat split.
  - by rewrite length_map.
  - intros i l Hl. rewrite list_lookup_fmap, Hl. cbn [fmap option_fmap option_map].
    eexists. split; [ reflexivity | ].
    by destruct (is_current state l).
Qed.

Lemma MAKE_COMPARISON_completion_witness :
  let rs := {| sortedListItemIds := ["b"; "a"];
               pendingItemIds := [];
               currentCandidateId := "c";
               low := 2;
               high := 1;
               mode := Some full |} in
  let state := {| lists :=
                    [ {| list_id := "list-1";
                         list_name := "Test List";
                         items := [mkListItem "a" "A"; mkListItem "b" "B";
                                   mkListItem "c" "C"];
                         status := ranking;
                         rankedData := None;
                         unrankedItems := None;
                         createdAt := 0 |} ];
                  currentListId := Some "list-1";
                  rankingState := Some rs;
                  currentTab := tab_current;
                  currentView := view_ranking |} in
  let state' := appReducer state (MAKE_COMPARISON false) in
  rankingState state' = None
  /\ currentView state' = view_rankedResult
  /\ currentListId state' = currentListId state
  /\ currentTab state' = currentTab state
  /\ length (lists state') = length (lists state)
  /\ forall (i : nat) (l : RankList),
       lists state !! i = Some l ->
       exists l',
         lists state' !! i = Some l'
         /\ if is_current state l then
              status l' = ranked
              /\ rankedData l' = Some {| itemIdsInOrder := ["b"; "a"] |}
              /\ unrankedItems l' = None
              /\ list_id l' = list_id l
              /\ list_name l' = list_name l
              /\ items l' = items l
              /\ createdAt l' = createdAt l
            else l' = l.
Proof.
  intros rs state.
  apply (MAKE_COMPARISON_completion state rs false); reflexivity.
Defined.

(** ** Where the engine departs from its tests *)

(** In full mode the candidate is also the first pending identifier:
    [pendingItemIds] is [itemIds.slice(1)], which starts at [itemIds[1]]. *)
Lemma initializeRankingState_pending (items : list ListItem)
  (s : RankingState) :
  initializeRankingState items = Some s ->
  pendingItemIds s = drop 1 (map item_id items)
  /\ head (pendingItemIds s) = Some (currentCandidateId s)
  /\ (length (sortedListItemIds s) + length (pendingItemIds s) + 1
      = S (length items))%nat.
Proof.
  rewrite initializeRankingState_reads.
  destruct items as [ | i0 [ | i1 rest ] ]; try discriminate.
  intros [= <-]. cbn. rewrite length_map. repeat split. lia.
Qed.

(** X2.  When the window is exhausted, the call returns [null] exactly when at
    most one identifier is pending. *)
Lemma processComparison_null_iff (s : RankingState) (b : bool) :
  processComparison s b = None <->
  (let mid := (low s + high s) / 2 in
   (if b then low s else mid + 1) > (if b then mid - 1 else high s))
  /\ (length (pendingItemIds s) <= 1)%nat.
Proof.
  cbn zeta.
  destruct (processComparison_cases s b) as [ [Hle Heq] | [Hgt Heq] ];
    rewrite Heq.
  - split; [ discriminate | lia ].
  - destruct (pendingItemIds s) as [ | p0 [ | p1 rest ] ]; cbn [length].
    + split; [ intros _; split; [ exact Hgt | lia ] | done ].
    + split; [ intros _; split; [ exact Hgt | lia ] | done ].
    + split; [ discriminate | lia ].
Qed.

(** C1 (conservation), at [initializeRankingState([a, b])]: the session
    holds [a, b, b], which is not the multiset supplied, the count is 3
    instead of 2, and the candidate [b] is pending as well. *)
Theorem full_init_breaks_conservation :
  let items := [mkListItem "a" "A"; mkListItem "b" "B"] in
  exists s : RankingState,
    initializeRankingState items = Some s
    /\ held_ids s = ["a"; "b"; "b"]
    /\ ~ (held_ids s ≡ₚ map item_id items)
    /\ (length (sortedListItemIds s) + length (pendingItemIds s) + 1)%nat
       = 3%nat
    /\ length items = 2%nat
    /\ currentCandidateId s ∈ pendingItemIds s
    /\ ~ conserved (map item_id items) s.
Proof.
  cbn zeta. eexists. split; [ reflexivity | ].
  assert (Hperm : ~ (["a"; "b"; "b"] ≡ₚ ["a"; "b"])).
  { intros Hp. apply Permutation_length in Hp. discriminate. }
  repeat split; try done.
  - cbn. apply list_elem_of_here.
  - intros (Hp & _). by apply Hperm.
Qed.

(** C3 (full initialization shape), at [initializeRankingState([a, b, c])]:
    [pendingItemIds] is [[b, c]], not [[c]]; the other fields are as
    claimed. *)
Theorem full_init_pending_from_index_1 :
  initializeRankingState
    [mkListItem "a" "A"; mkListItem "b" "B"; mkListItem "c" "C"]
  = Some {| sortedListItemIds := ["a"];
            pendingItemIds := ["b"; "c"];
            currentCandidateId := "b";
            low := 0;
            high := 0;
            mode := Some full |}
  /\ ["b"; "c"] <> ["c"].
Proof. split; [ reflexivity | discriminate ]. Qed.

(** C4 (completion check), at the session of
    [initializePartialRankingState([a], [b, c])] and the answer "candidate
    preferred": [c] is pending, yet the call returns [null] instead of the
    session with [ordered = [b, a]] and candidate [c]. *)
Theorem completion_despite_pending_item :
  exists s : RankingState,
    initializePartialRankingState ["a"]
      [mkListItem "b" "B"; mkListItem "c" "C"] = Some s
    /\ sortedListItemIds s = ["a"]
    /\ currentCandidateId s = "b"
    /\ pendingItemIds s = ["c"]
    /\ low s = 0 /\ high s = 0
    /\ processComparison s true = None.
Proof. eexists. by repeat split. Qed.

(** C2 (completion outcome), on a list of the two items [a] and [b]:
    [START_RANKING] followed by one [MAKE_COMPARISON] completes the
    session; [processComparison] returns [null], which carries no
    sequence, and the ranking recorded for the list is [[a]]: [b], the
    candidate just placed, is missing. *)
Theorem completion_loses_last_candidate :
  let state0 :=
    {| lists := [ {| list_id := "list-1";
                     list_name := "Test List";
                     items := [mkListItem "a" "A"; mkListItem "b" "B"];
                     status := unranked;
                     rankedData := None;
                     unrankedItems := None;
                     createdAt := 0 |} ];
       currentListId := Some "list-1";
       rankingState := None;
       currentTab := tab_current;
       currentView := view_currentList |} in
  let state1 := appReducer state0 (START_RANKING "list-1") in
  let state2 := appReducer state1 (MAKE_COMPARISON false) in
  rankingState state1
  = initializeRankingState [mkListItem "a" "A"; mkListItem "b" "B"]
  /\ (exists s : RankingState,
         rankingState state1 = Some s
         /\ processComparison s false = None
         /\ processComparison s true = None)
  /\ rankingState state2 = None
  /\ map status (lists state2) = [ranked]
  /\ map rankedData (lists state2) = [Some {| itemIdsInOrder := ["a"] |}]
  /\ "b" ∉ ["a"].
Proof.
  cbn zeta. repeat split.
  - eexists. by repeat split.
  - intros Hin%list_elem_of_singleton. discriminate.
Qed.

(** ** What the engine does guarantee *)

(** No call that returns a session loses or duplicates an identifier, so
    whatever multiset the initializer put into the session stays. *)
Lemma run_held_ids (s0 s : RankingState) (answers : list bool) :
  run s0 answers = Some s -> held_ids s ≡ₚ held_ids s0.
Proof.
  revert s0. induction answers as [ | b rest IH ]; intros s0; cbn.
  - by intros [= <-].
  - destruct (processComparison s0 b) as [ s1 | ] eqn:Hstep; [ | done ].
    intros Hrun. rewrite (IH _ Hrun).
    by eapply processComparison_held_ids.
Qed.

(** Partial mode on a non-empty existing order starts conserved, hence
    every active session value of it holds exactly the identifiers
    supplied. *)
Lemma partial_session_held_ids
  (existingOrder : list string) (newItems : list ListItem)
  (s0 s : RankingState) (answers : list bool) :
  existingOrder <> [] ->
  initializePartialRankingState existingOrder newItems = Some s0 ->
  run s0 answers = Some s ->
  held_ids s ≡ₚ existingOrder ++ map item_id newItems.
Proof.
  intros Hne Hinit Hrun.
  rewrite (run_held_ids _ _ _ Hrun).
  rewrite initializePartialRankingState_reads in Hinit.
  destruct newItems as [ | n0 rest ]; [ discriminate | ].
  destruct existingOrder as [ | e0 existing ]; [ done | ].
  injection Hinit as <-. unfold held_ids.
  cbn [sortedListItemIds pendingItemIds currentCandidateId].
  apply Permutation_app_head. cbn [map].
  by rewrite <- Permutation_cons_append.
Qed.

(** X3.  On an active session value an exhausted window is inserted into at the
    narrowed [low], which is an index from [0] to the length: the
    candidate lands at that index, what was before it stays and what was
    at or after it moves one place to the right. *)
Lemma processComparison_inserts_at_low (s s' : RankingState) (b : bool) :
  Session s ->
  let mid := (low s + high s) / 2 in
  let newLow := if b then low s else mid + 1 in
  let newHigh := if b then mid - 1 else high s in
  newLow > newHigh ->
  processComparison s b = Some s' ->
  0 <= newLow <= Z.of_nat (length (sortedListItemIds s))
  /\ sortedListItemIds s' !! Z.to_nat newLow = Some (currentCandidateId s)
  /\ (forall i : nat, (i < Z.to_nat newLow)%nat ->
        sortedListItemIds s' !! i = sortedListItemIds s !! i)
  /\ (forall i : nat, (Z.to_nat newLow <= i)%nat ->
        sortedListItemIds s' !! S i = sortedListItemIds s !! i)
  /\ head (pendingItemIds s) = Some (currentCandidateId s')
  /\ pendingItemIds s' = drop 1 (pendingItemIds s)
  /\ low s' = 0
  /\ high s' = Z.of_nat (length (sortedListItemIds s')) - 1.
Proof.
  intros Hs mid newLow newHigh Hgt Hstep.
  pose proof (Session_window s Hs) as (Hlo & Hlh & Hhi).
  pose proof (mid_between _ _ Hlh) as Hmid. fold mid in Hmid.
  assert (Hr : 0 <= newLow <= Z.of_nat (length (sortedListItemIds s))).
  { subst newLow newHigh. destruct b; lia. }
  destruct (processComparison_cases s b) as [ [Hle _] | [_ Heq] ].
  { fold mid in Hle. fold newLow in Hle. fold newHigh in Hle. lia. }
  fold mid in Heq. fold newLow in Heq.
  rewrite Heq in Hstep.
  destruct (pendingItemIds s) as [ | p0 [ | p1 rest ] ]; try discriminate.
  injection Hstep as <-.
  cbn [sortedListItemIds pendingItemIds currentCandidateId low high].
  destruct (splice_insert_lookup newLow (currentCandidateId s)
              (sortedListItemIds s) Hr) as (Hat & Hbefore & Hafter).
  rewrite splice_insert_length.
  repeat split; try done; lia.
Qed.

(** * Further properties of the engine *)

(** ** When the initializers refuse *)

(** With no existing order the partial initializer is the full one. *)
Lemma initializePartialRankingState_nil (newItems : list ListItem) :
  initializePartialRankingState [] newItems = initializeRankingState newItems.
Proof. by destruct newItems. Qed.

(** X1.  [initializePartialRankingState] returns [null] in exactly two cases:
    there is no new item, or there is no existing order and only one new
    item (a single item cannot be inserted into an empty ranking). *)
Theorem initializePartialRankingState_null_iff
  (existingRankedIds : list string) (newItems : list ListItem) :
  initializePartialRankingState existingRankedIds newItems = None <->
  newItems = [] \/ (existingRankedIds = [] /\ length newItems = 1%nat).
Proof.
  rewrite initializePartialRankingState_reads.
  destruct newItems as [ | n0 [ | n1 rest ] ];
    destruct existingRankedIds as [ | e0 existing ]; cbn;
    split; intros H; try done; auto;
    destruct H as [ H | [H1 H2] ]; done.
Qed.

(** ** Cost of placing a candidate *)

(** A call that returns a session either keeps [ordered] and at least
    halves a non-empty window, or makes [ordered] one longer. *)
Lemma processComparison_step_kinds (s s' : RankingState) (b : bool) :
  processComparison s b = Some s' ->
  (sortedListItemIds s' = sortedListItemIds s
   /\ pendingItemIds s' = pendingItemIds s
   /\ low s <= high s
   /\ 0 < window_size s' /\ 2 * window_size s' <= window_size s)
  \/
  (length (sortedListItemIds s') = S (length (sortedListItemIds s))
   /\ S (length (pendingItemIds s')) = length (pendingItemIds s)
   /\ (2 <= length (pendingItemIds s))%nat
   /\ window_size s' = Z.of_nat (length (sortedListItemIds s'))).
Proof.
  intros Hstep.
  destruct (processComparison_cases s b) as [ [Hle Heq] | [_ Heq] ];
    rewrite Heq in Hstep.
  - left. injection Hstep as <-. unfold window_size.
    cbn [sortedListItemIds pendingItemIds low high].
    assert (Hwin : low s <= high s).
    { destruct (Z_le_gt_dec (low s) (high s)) as [ | Hempty ]; [ done | ].
      pose proof (mid_empty_window (low s) (high s)). destruct b; lia. }
    pose proof (mid_between _ _ Hwin) as Hmid.
    assert (Hdiv : (low s + high s) / 2 * 2 <= low s + high s
                   < ((low s + high s) / 2 + 1) * 2).
    { pose proof (Z.div_mod (low s + high s) 2).
      pose proof (Z.mod_pos_bound (low s + high s) 2). lia. }
    repeat split; try done; destruct b; lia.
  - right.
    destruct (pendingItemIds s) as [ | p0 [ | p1 rest ] ]; try discriminate.
    injection Hstep as <-. unfold window_size.
    cbn [sortedListItemIds pendingItemIds low high length].
    rewrite splice_insert_length. repeat split; lia.
Qed.

(** X4.  A comparison that does not place the candidate leaves at most half of
    the window. *)
Theorem narrowing_halves (s s' : RankingState) (b : bool) :
  processComparison s b = Some s' ->
  sortedListItemIds s' = sortedListItemIds s ->
  0 < window_size s' <= window_size s / 2.
Proof.
  intros Hstep Hsame.
  destruct (processComparison_step_kinds s s' b Hstep)
    as [ (_ & _ & _ & Hpos & Hhalf) | (Hgrow & _) ].
  - split; [ done | ]. apply Z.div_le_lower_bound; lia.
  - rewrite Hsame in Hgrow. lia.
Qed.

Lemma narrowing_halves_witness :
  0 < window_size
        {| sortedListItemIds := ["a"; "b"; "c"; "d"; "e"];
           pendingItemIds := ["y"];
           currentCandidateId := "x";
           low := 3;
           high := 4;
           mode := Some partial |}
  <= 5 / 2.
Proof.
  apply (narrowing_halves
           {| sortedListItemIds := ["a"; "b"; "c"; "d"; "e"];
              pendingItemIds := ["y"];
              currentCandidateId := "x";
              low := 0;
              high := 4;
              mode := Some partial |} _ false).
  - reflexivity.
  - reflexivity.
Defined.

Lemma run_length_sorted (s0 s : RankingState) (answers : list bool) :
  run s0 answers = Some s ->
  (length (sortedListItemIds s0) <= length (sortedListItemIds s))%nat.
Proof. intros Hrun. apply sublist_length. by eapply run_sublist. Qed.

(** X5.  A window of fewer than [2^k] positions is exhausted by [k] answers,
    whatever they are: after [k >= 1] answers the candidate has been
    inserted ([ordered] is longer) or the session is over. *)
Theorem placement_within_log (k : nat) (s : RankingState)
  (answers : list bool) :
  window_size s < 2 ^ Z.of_nat k ->
  length answers = k ->
  (0 < k)%nat ->
  match run s answers with
  | None => True
  | Some s' =>
      (length (sortedListItemIds s) < length (sortedListItemIds s'))%nat
  end.
Proof.
  revert s answers.
  induction k as [ | k IH ]; intros s answers Hsize Hlen Hk; [ lia | ].
  destruct answers as [ | b rest ]; [ discriminate | ].
  injection Hlen as Hlen. cbn [run].
  destruct (processComparison s b) as [ s1 | ] eqn:Hstep; [ | done ].
  destruct (processComparison_step_kinds s s1 b Hstep)
    as [ (Hsame & _ & _ & Hpos & Hhalf) | (Hgrow & _) ].
  - assert (Hpow : 2 ^ Z.of_nat (S k) = 2 * 2 ^ Z.of_nat k).
    { rewrite Nat2Z.inj_succ. apply Z.pow_succ_r. lia. }
    destruct k as [ | k' ].
    + (* a window of one position cannot be narrowed *)
      exfalso. change (2 ^ Z.of_nat 1) with 2 in Hsize. lia.
    + specialize (IH s1 rest). rewrite Hsame in IH.
      apply IH; [ lia | done | lia ].
  - destruct (run s1 rest) as [ s' | ] eqn:Hrun; [ | done ].
    apply run_length_sorted in Hrun. lia.
Qed.

Lemma placement_within_log_witness :
  let s := {| sortedListItemIds := ["a"; "b"; "c"; "d"; "e"];
              pendingItemIds := ["y"; "z"];
              currentCandidateId := "x";
              low := 0;
              high := 4;
              mode := Some partial |} in
  match run s [false; false; false] with
  | None => True
  | Some s' =>
      (length (sortedListItemIds s) < length (sortedListItemIds s'))%nat
  end.
Proof.
  intros s. apply (placement_within_log 3 s [false; false; false]).
  - vm_compute. reflexivity.
  - reflexivity.
  - lia.
Defined.

(** ** Every session ends *)

Lemma session_measure_decreases (s s' : RankingState) (b : bool) :
  window_ok s ->
  processComparison s b = Some s' ->
  session_measure s' < session_measure s.
Proof.
  intros (Hlo & Hlh & Hhi) Hstep. unfold session_measure.
  destruct (processComparison_step_kinds s s' b Hstep)
    as [ (Hsame & Hpend & _ & Hpos & Hhalf)
       | (Hgrow & Hpend & Htwo & Hsize) ].
  - rewrite Hsame, Hpend. lia.
  - rewrite Hsize, Hgrow.
    replace (length (sortedListItemIds s) + length (pendingItemIds s))%nat
      with (S (length (sortedListItemIds s))
            + length (pendingItemIds s'))%nat by lia.
    replace (length (pendingItemIds s))
      with (S (length (pendingItemIds s'))) by lia.
    unfold window_size. nia.
Qed.

Lemma session_measure_pos (s : RankingState) :
  window_ok s -> 0 < session_measure s.
Proof.
  intros (Hlo & Hlh & Hhi). unfold session_measure, window_size. nia.
Qed.

Lemma run_ends (answers : list bool) (s : RankingState) :
  window_ok s ->
  session_measure s <= Z.of_nat (length answers) ->
  run s answers = None.
Proof.
  revert s. induction answers as [ | b rest IH ]; intros s Hok Hm.
  - pose proof (session_measure_pos s Hok). cbn [length] in Hm. lia.
  - cbn [run]. destruct (processComparison s b) as [ s1 | ] eqn:Hstep;
      [ | done ].
    apply IH; [ by eapply processComparison_window | ].
    pose proof (session_measure_decreases s s1 b Hok Hstep).
    cbn [length] in Hm. lia.
Qed.

(** X6.  Whatever the answers, an active session value [s] takes fewer than
    [session_measure s] of them: any longer sequence of answers reaches the
    completion signal. *)
Theorem session_ends (s : RankingState) (answers : list bool) :
  Session s ->
  session_measure s <= Z.of_nat (length answers) ->
  run s answers = None.
Proof.
  intros Hs. apply run_ends. by apply Session_window.
Qed.

Lemma session_ends_witness :
  run {| sortedListItemIds := ["a"];
         pendingItemIds := ["c"; "d"];
         currentCandidateId := "b";
         low := 0;
         high := 0;
         mode := Some partial |}
    [true; false; true; false; true; false; true] = None.
Proof.
  apply session_ends.
  - apply (Session_partial ["a"]
             [mkListItem "b" "B"; mkListItem "c" "C"; mkListItem "d" "D"]).
    reflexivity.
  - vm_compute. discriminate.
Defined.

(** ** Consistent answers give a sorted order *)

Lemma splice_insert_sorted (rank : string -> Z) (n : Z) (c : string)
  (l : list string) :
  sorted_by rank l ->
  0 <= n <= Z.of_nat (length l) ->
  (forall (i : nat) (x : string),
      Z.of_nat i < n -> l !! i = Some x -> rank x <= rank c) ->
  (forall (i : nat) (x : string),
      n <= Z.of_nat i -> l !! i = Some x -> rank c <= rank x) ->
  sorted_by rank (splice_insert n c l).
Proof.
  intros Hsorted Hn Hleft Hright.
  destruct (splice_insert_lookup n c l Hn) as (Hat & Hbefore & Hafter).
  intros i j x y Hij Hi Hj.
  destruct (lt_eq_lt_dec i (Z.to_nat n)) as [ [Hi_lt | Hi_eq] | Hi_gt ].
  - rewrite Hbefore in Hi by done.
    destruct (lt_eq_lt_dec j (Z.to_nat n)) as [ [Hj_lt | Hj_eq] | Hj_gt ].
    + rewrite Hbefore in Hj by done.
      eapply (Hsorted i j); [ lia | done | done ].
    + subst j. rewrite Hat in Hj. injection Hj as <-.
      eapply Hleft; [ | done ]. lia.
    + destruct j as [ | j' ]; [ lia | ].
      rewrite Hafter in Hj by lia.
      eapply (Hsorted i j'); [ lia | done | done ].
  - subst i. rewrite Hat in Hi. injection Hi as <-.
    destruct j as [ | j' ]; [ lia | ].
    rewrite Hafter in Hj by lia.
    eapply Hright; [ | done ]. lia.
  - destruct i as [ | i' ]; [ lia | ]. destruct j as [ | j' ]; [ lia | ].
    rewrite Hafter in Hi by lia. rewrite Hafter in Hj by lia.
    eapply (Hsorted i' j'); [ lia | done | done ].
Qed.

(** On a session value with a valid window the reference shown is the
    element at [mid], and the answer compares the scores. *)
Lemma answer_by_in_window (rank : string -> Z) (s : RankingState) :
  window_ok s ->
  exists reference : string,
    sortedListItemIds s !! Z.to_nat ((low s + high s) / 2) = Some reference
    /\ answer_by rank s
       = (rank (currentCandidateId s) <? rank reference).
Proof.
  intros (Hlo & Hlh & Hhi).
  pose proof (mid_between _ _ Hlh) as Hmid.
  destruct (lookup_lt_is_Some_2 (sortedListItemIds s)
              (Z.to_nat ((low s + high s) / 2))) as [r Hr]; [ lia | ].
  exists r. split; [ done | ].
  unfold answer_by, getCurrentComparison, js_index.
  cbn [referenceId candidateId].
  destruct (_ <? 0) eqn:Hneg; [ lia | ]. by rewrite Hr.
Qed.

Lemma narrowed_search_inv (rank : string -> Z) (s : RankingState) :
  window_ok s ->
  search_inv rank s ->
  let b := answer_by rank s in
  let mid := (low s + high s) / 2 in
  let newLow := if b then low s else mid + 1 in
  let newHigh := if b then mid - 1 else high s in
  (forall (i : nat) (x : string),
      Z.of_nat i < newLow -> sortedListItemIds s !! i = Some x ->
      rank x <= rank (currentCandidateId s))
  /\ (forall (i : nat) (x : string),
        newHigh < Z.of_nat i -> sortedListItemIds s !! i = Some x ->
        rank (currentCandidateId s) < rank x)
  /\ (newLow > newHigh -> newLow = newHigh + 1)
  /\ 0 <= newLow <= Z.of_nat (length (sortedListItemIds s)).
Proof.
  intros Hok (Hsorted & Hleft & Hright) b mid newLow newHigh.
  destruct (answer_by_in_window rank s Hok) as (r & Hr & Hb).
  fold b in Hb. fold mid in Hr.
  destruct Hok as (Hlo & Hlh & Hhi).
  pose proof (mid_between _ _ Hlh) as Hmid. fold mid in Hmid.
  subst newLow newHigh.
  destruct b; symmetry in Hb.
  - apply Z.ltb_lt in Hb.
    split; [ exact Hleft | ]. split; [ | lia ].
    intros i x Hi Hx.
    destruct (decide (i = Z.to_nat mid)) as [ -> | Hne ].
    + rewrite Hr in Hx. injection Hx as <-. lia.
    + assert (rank r <= rank x).
      { eapply (Hsorted (Z.to_nat mid) i); [ lia | done | done ]. }
      lia.
  - apply Z.ltb_ge in Hb.
    split; [ | split; [ exact Hright | lia ] ].
    intros i x Hi Hx.
    destruct (decide (i = Z.to_nat mid)) as [ -> | Hne ].
    + rewrite Hr in Hx. by injection Hx as <-.
    + assert (rank x <= rank r).
      { eapply (Hsorted i (Z.to_nat mid)); [ lia | done | done ]. }
      lia.
Qed.

Lemma processComparison_search_inv (rank : string -> Z)
  (s s' : RankingState) :
  window_ok s ->
  search_inv rank s ->
  processComparison s (answer_by rank s) = Some s' ->
  search_inv rank s'.
Proof.
  intros Hok Hinv Hstep.
  destruct (narrowed_search_inv rank s Hok Hinv)
    as (Hleft & Hright & Hadj & Hrange).
  destruct Hinv as (Hsorted & _ & _).
  destruct (processComparison_cases s (answer_by rank s))
    as [ [Hle Heq] | [Hgt Heq] ]; rewrite Heq in Hstep.
  - injection Hstep as <-. by repeat split.
  - destruct (pendingItemIds s) as [ | p0 [ | p1 rest ] ]; try discriminate.
    injection Hstep as <-. unfold search_inv.
    cbn [sortedListItemIds currentCandidateId low high].
    repeat split.
    + apply splice_insert_sorted; [ done | done | done | ].
      intros i x Hi Hx. apply Z.lt_le_incl. eapply Hright; [ | done ]. lia.
    + intros i x Hi. lia.
    + intros i x Hi Hx. apply lookup_lt_Some in Hx.
      rewrite splice_insert_length in Hx. lia.
Qed.

Lemma run_search_inv (rank : string -> Z) (answers : list bool)
  (s0 s : RankingState) :
  window_ok s0 ->
  search_inv rank s0 ->
  answers_follow rank s0 answers ->
  run s0 answers = Some s ->
  search_inv rank s.
Proof.
  revert s0. induction answers as [ | b rest IH ];
    intros s0 Hok Hinv Hfollow Hrun; cbn in Hrun.
  - by injection Hrun as <-.
  - destruct Hfollow as (-> & Hfollow).
    destruct (processComparison s0 (answer_by rank s0)) as [ s1 | ]
      eqn:Hstep; [ | done ].
    eapply (IH s1); [ | | done | done ].
    + by eapply processComparison_window.
    + by eapply processComparison_search_inv.
Qed.

Lemma initializePartialRankingState_search_inv (rank : string -> Z)
  (existingRankedIds : list string) (newItems : list ListItem)
  (s : RankingState) :
  sorted_by rank existingRankedIds ->
  initializePartialRankingState existingRankedIds newItems = Some s ->
  search_inv rank s.
Proof.
  intros Hsorted. rewrite initializePartialRankingState_reads.
  destruct newItems as [ | n0 rest ]; [ discriminate | ].
  destruct existingRankedIds as [ | e0 existing ].
  - rewrite initializeRankingState_reads.
    destruct rest as [ | n1 rest ]; [ discriminate | ].
    intros [= <-]. unfold search_inv.
    cbn [sortedListItemIds currentCandidateId low high].
    repeat split.
    + intros i j x y Hij _ Hj. apply lookup_lt_Some in Hj. cbn in Hj. lia.
    + intros i x Hi. lia.
    + intros i x Hi Hx. apply lookup_lt_Some in Hx. cbn in Hx. lia.
  - intros [= <-]. unfold search_inv.
    cbn [sortedListItemIds currentCandidateId low high].
    repeat split.
    + done.
    + intros i x Hi. lia.
    + intros i x Hi Hx. apply lookup_lt_Some in Hx. cbn [length] in *. lia.
Qed.

(** X8.  Inserting new items into an order that is sorted by a score, with
    answers that follow that score, keeps [ordered] sorted by the score in
    every session value. *)
Theorem partial_ranking_sorted (rank : string -> Z)
  (existingRankedIds : list string) (newItems : list ListItem)
  (answers : list bool) (s0 s : RankingState) :
  sorted_by rank existingRankedIds ->
  initializePartialRankingState existingRankedIds newItems = Some s0 ->
  answers_follow rank s0 answers ->
  run s0 answers = Some s ->
  sorted_by rank (sortedListItemIds s).
Proof.
  intros Hsorted Hinit Hfollow Hrun.
  eapply (run_search_inv rank answers s0 s); [ | | done | done ].
  - by eapply initializePartialRankingState_window.
  - by eapply initializePartialRankingState_search_inv.
Qed.

(** X7.  A full ranking whose answers follow a score keeps [ordered] sorted by
    that score in every session value. *)
Theorem full_ranking_sorted (rank : string -> Z) (items : list ListItem)
  (answers : list bool) (s0 s : RankingState) :
  initializeRankingState items = Some s0 ->
  answers_follow rank s0 answers ->
  run s0 answers = Some s ->
  sorted_by rank (sortedListItemIds s).
Proof.
  intros Hinit Hfollow Hrun.
  rewrite <- initializePartialRankingState_nil in Hinit.
  eapply (run_search_inv rank answers s0 s); [ | | done | done ].
  - by eapply initializePartialRankingState_window.
  - eapply initializePartialRankingState_search_inv; [ | done ].
    intros i j x y _ Hi. by rewrite lookup_nil in Hi.
Qed.

Lemma partial_ranking_sorted_witness :
  sorted_by first_char_rank ["a"; "b"; "c"].
Proof.
  apply (partial_ranking_sorted first_char_rank ["a"; "c"]
           [mkListItem "b" "B"; mkListItem "d" "D"; mkListItem "e" "E"]
           [false; true]
           {| sortedListItemIds := ["a"; "c"];
              pendingItemIds := ["d"; "e"];
              currentCandidateId := "b";
              low := 0;
              high := 1;
              mode := Some partial |}
           {| sortedListItemIds := ["a"; "b"; "c"];
              pendingItemIds := ["e"];
              currentCandidateId := "d";
              low := 0;
              high := 2;
              mode := Some partial |}).
  - intros i j x y Hij Hi Hj.
    destruct i as [ | [ | i ] ]; destruct j as [ | [ | j ] ];
      cbn in Hi, Hj; try lia; try discriminate.
    injection Hi as <-. injection Hj as <-. vm_compute. discriminate.
  - reflexivity.
  - vm_compute. repeat split.
  - reflexivity.
Defined.

Lemma full_ranking_sorted_witness :
  sorted_by first_char_rank ["a"; "c"].
Proof.
  apply (full_ranking_sorted first_char_rank
           [mkListItem "c" "C"; mkListItem "a" "A"; mkListItem "b" "B"]
           [true; false]
           {| sortedListItemIds := ["c"];
              pendingItemIds := ["a"; "b"];
              currentCandidateId := "a";
              low := 0;
              high := 0;
              mode := Some full |}
           {| sortedListItemIds := ["a"; "c"];
              pendingItemIds := ["b"];
              currentCandidateId := "a";
              low := 1;
              high := 1;
              mode := Some full |}).
  - reflexivity.
  - vm_compute. repeat split.
  - reflexivity.
Defined.

(** ** Identifiers held by a session *)

(** X9.  No sequence of answers loses, duplicates or invents an identifier:
    every session value reached holds, across [ordered], [pending] and the
    candidate, the multiset the starting value held, and
    [ordered.length + pending.length] does not change. *)
Theorem session_keeps_identifiers (s0 s : RankingState)
  (answers : list bool) :
  run s0 answers = Some s ->
  held_ids s ≡ₚ held_ids s0
  /\ (length (sortedListItemIds s) + length (pendingItemIds s)
      = length (sortedListItemIds s0) + length (pendingItemIds s0))%nat.
Proof.
  intros Hrun. pose proof (run_held_ids _ _ _ Hrun) as Hperm.
  split; [ done | ].
  apply Permutation_length in Hperm. unfold held_ids in Hperm.
  rewrite !length_app in Hperm. cbn [length] in Hperm. lia.
Qed.

Lemma session_keeps_identifiers_witness :
  let s0 := {| sortedListItemIds := ["a"; "b"];
               pendingItemIds := ["d"; "e"];
               currentCandidateId := "c";
               low := 0;
               high := 1;
               mode := Some partial |} in
  let s := {| sortedListItemIds := ["a"; "c"; "b"];
              pendingItemIds := ["e"];
              currentCandidateId := "d";
              low := 2;
              high := 2;
              mode := Some partial |} in
  held_ids s ≡ₚ held_ids s0
  /\ (length (sortedListItemIds s) + length (pendingItemIds s)
      = length (sortedListItemIds s0) + length (pendingItemIds s0))%nat.
Proof.
  intros s0 s.
  apply (session_keeps_identifiers s0 s [false; true; false]). reflexivity.
Defined.

(** X10.  Partial mode conserves the items: when the existing order is not empty
    and the existing and new identifiers are pairwise distinct, every
    session value reached holds each of them exactly once, the candidate
    is neither in [ordered] nor pending, and
    [ordered.length + pending.length + 1] is the number of identifiers. *)
Theorem partial_session_conserved
  (existingOrder : list string) (newItems : list ListItem)
  (s0 s : RankingState) (answers : list bool) :
  existingOrder <> [] ->
  NoDup (existingOrder ++ map item_id newItems) ->
  initializePartialRankingState existingOrder newItems = Some s0 ->
  run s0 answers = Some s ->
  conserved (existingOrder ++ map item_id newItems) s
  /\ NoDup (sortedListItemIds s).
Proof.
  intros Hne Hnodup Hinit Hrun.
  pose proof (partial_session_held_ids _ _ _ _ _ Hne Hinit Hrun) as Hperm.
  assert (Hnd : NoDup (held_ids s)) by (by rewrite Hperm).
  unfold held_ids in Hnd.
  apply NoDup_app in Hnd as (Hsorted & Hdisj & Hrest).
  apply NoDup_app in Hrest as (_ & Hdisj' & _).
  unfold conserved. repeat split.
  - done.
  - apply Permutation_length in Hperm. unfold held_ids in Hperm.
    rewrite !length_app in Hperm. cbn [length] in Hperm.
    rewrite length_app. lia.
  - intros Hin. apply (Hdisj _ Hin). apply elem_of_app. right.
    apply list_elem_of_singleton. done.
  - intros Hin. apply (Hdisj' _ Hin). by apply list_elem_of_singleton.
  - done.
Qed.

Lemma partial_session_conserved_witness :
  let newItems :=
    [mkListItem "c" "C"; mkListItem "d" "D"; mkListItem "e" "E"] in
  let s := {| sortedListItemIds := ["a"; "c"; "b"];
              pendingItemIds := ["e"];
              currentCandidateId := "d";
              low := 2;
              high := 2;
              mode := Some partial |} in
  conserved (["a"; "b"] ++ map item_id newItems) s
  /\ NoDup (sortedListItemIds s).
Proof.
  intros newItems s.
  apply (partial_session_conserved ["a"; "b"] newItems
           {| sortedListItemIds := ["a"; "b"];
              pendingItemIds := ["d"; "e"];
              currentCandidateId := "c";
              low := 0;
              high := 1;
              mode := Some partial |}
           s [false; true; false]).
  - discriminate.
  - refine (bool_decide_unpack _ _). vm_compute. exact I.
  - reflexivity.
  - reflexivity.
Defined.

(** ** What a completed full ranking leaves behind *)

Lemma full_session_counts (items : list ListItem) (s0 s : RankingState)
  (answers : list bool) :
  initializeRankingState items = Some s0 ->
  run s0 answers = Some s ->
  (length (sortedListItemIds s) + length (pendingItemIds s)
   = length items)%nat
  /\ (1 <= length (pendingItemIds s))%nat.
Proof.
  intros Hinit. rewrite initializeRankingState_reads in Hinit.
  destruct items as [ | i0 [ | i1 rest ] ]; try discriminate.
  injection Hinit as <-.
  assert (Hstart :
    forall s1 : RankingState,
      (length (sortedListItemIds s1) + length (pendingItemIds s1)
       = length (i0 :: i1 :: rest))%nat
      /\ (1 <= length (pendingItemIds s1))%nat ->
      run s1 answers = Some s ->
      (length (sortedListItemIds s) + length (pendingItemIds s)
       = length (i0 :: i1 :: rest))%nat
      /\ (1 <= length (pendingItemIds s))%nat).
  { induction answers as [ | b more IH ]; intros s1 Hs1 Hrun; cbn in Hrun.
    - by injection Hrun as <-.
    - destruct (processComparison s1 b) as [ s2 | ] eqn:Hstep; [ | done ].
      apply (IH s2); [ | done ].
      destruct (processComparison_step_kinds s1 s2 b Hstep)
        as [ (Hsame & Hpend & _) | (Hgrow & Hpend & Htwo & _) ].
      + rewrite Hsame, Hpend. done.
      + lia. }
  apply Hstart. cbn [sortedListItemIds pendingItemIds length].
  rewrite length_map. lia.
Qed.

(** X13.  When a session started by [initializeRankingState] on [n] items
    completes, [sortedListItemIds] of the last session value, which is what
    the caller still holds when [null] comes back, has [n - 1] elements
    and exactly one identifier is still pending. *)
Theorem full_session_completes_one_short (items : list ListItem)
  (s0 s : RankingState) (answers : list bool) (b : bool) :
  initializeRankingState items = Some s0 ->
  run s0 answers = Some s ->
  processComparison s b = None ->
  (length (sortedListItemIds s) + 1 = length items)%nat
  /\ length (pendingItemIds s) = 1%nat.
Proof.
  intros Hinit Hrun Hnull.
  destruct (full_session_counts items s0 s answers Hinit Hrun)
    as (Hsum & Hone).
  destruct (processComparison_cases s b) as [ [_ Heq] | [_ Heq] ];
    rewrite Heq in Hnull; [ discriminate | ].
  destruct (pendingItemIds s) as [ | p0 [ | p1 rest ] ]; try discriminate;
    cbn [length] in *; lia.
Qed.

Lemma full_session_completes_one_short_witness :
  (length ["b"; "a"] + 1 = 3)%nat /\ length ["c"] = 1%nat.
Proof.
  apply (full_session_completes_one_short
           [mkListItem "a" "A"; mkListItem "b" "B"; mkListItem "c" "C"]
           {| sortedListItemIds := ["a"];
              pendingItemIds := ["b"; "c"];
              currentCandidateId := "b";
              low := 0;
              high := 0;
              mode := Some full |}
           {| sortedListItemIds := ["b"; "a"];
              pendingItemIds := ["c"];
              currentCandidateId := "b";
              low := 1;
              high := 1;
              mode := Some full |}
           [true; false] false); reflexivity.
Defined.

Lemma processComparison_inserts_at_low_witness :
  let s := {| sortedListItemIds := ["a"; "b"];
              pendingItemIds := ["d"; "e"];
              currentCandidateId := "c";
              low := 1;
              high := 1;
              mode := Some partial |} in
  let s' := {| sortedListItemIds := ["a"; "c"; "b"];
               pendingItemIds := ["e"];
               currentCandidateId := "d";
               low := 0;
               high := 2;
               mode := Some partial |} in
  0 <= 1 <= 2
  /\ sortedListItemIds s' !! 1%nat = Some "c"
  /\ (forall i : nat, (i < 1)%nat ->
        sortedListItemIds s' !! i = sortedListItemIds s !! i)
  /\ (forall i : nat, (1 <= i)%nat ->
        sortedListItemIds s' !! S i = sortedListItemIds s !! i)
  /\ head (pendingItemIds s) = Some "d"
  /\ pendingItemIds s' = drop 1 (pendingItemIds s)
  /\ low s' = 0
  /\ high s' = 3 - 1.
Proof.
  intros s s'.
  apply (processComparison_inserts_at_low s s' true).
  - apply (Session_step
             {| sortedListItemIds := ["a"; "b"];
                pendingItemIds := ["d"; "e"];
                currentCandidateId := "c";
                low := 0;
                high := 1;
                mode := Some partial |} false).
    + apply (Session_partial ["a"; "b"]
               [mkListItem "c" "C"; mkListItem "d" "D"; mkListItem "e" "E"]).
      reflexivity.
    + reflexivity.
  - reflexivity.
  - reflexivity.
Defined.

(** * Properties of the reducer *)

(** ** What the actions leave alone *)

Lemma find_list_Some (state : AppState) (listId : string) (l : RankList) :
  find_list state listId = Some l ->
  l ∈ lists state /\ list_id l = listId.
Proof.
  unfold find_list. intros Hfind. apply find_some in Hfind as (Hin & Heq).
  split; [ by apply list_elem_of_In | by apply String.eqb_eq ].
Qed.

Lemma map_keeps_list_ids (f : RankList -> RankList) (ls : list RankList) :
  (forall l, list_id (f l) = list_id l) ->
  map list_id (map f ls) = map list_id ls.
Proof.
  intros Hf. rewrite map_map. apply map_ext. exact Hf.
Qed.

(** The engine-related actions never add, remove, reorder or re-identify
    lists and never change which list is current. *)
Lemma appReducer_keeps_lists (state : AppState) (action : Action) :
  map list_id (lists (appReducer state action)) = map list_id (lists state)
  /\ currentListId (appReducer state action) = currentListId state.
Proof.
  destruct action; cbn [appReducer]; repeat case_match;
    cbn [lists currentListId]; (split; [ | done ]); try done;
    apply map_keeps_list_ids; intros lst; by case_match.
Qed.

Lemma appReducer_session_ok (state : AppState) (action : Action) :
  session_ok state -> session_ok (appReducer state action).
Proof.
  intros Hok rs.
  destruct action; cbn [appReducer]; repeat case_match;
    cbn [rankingState]; try (apply Hok); try discriminate;
    intros [= <-].
  - by eapply Session_full.
  - by eapply Session_partial.
  - eapply Session_step; [ by apply Hok | done ].
Qed.

Lemma addItem_list_ids (gen : nat -> string) (k : nat) (listId : string)
  (text : string) (ls : list RankList) :
  map list_id (addItem gen k listId text ls) = map list_id ls.
Proof.
  revert k. induction ls as [ | l rest IH ]; intros k; cbn; [ done | ].
  destruct (String.eqb (list_id l) listId); cbn; by rewrite IH.
Qed.

Lemma addUnrankedItem_list_ids (gen : nat -> string) (k : nat)
  (listId : string) (text : string) (ls : list RankList) :
  map list_id (addUnrankedItem gen k listId text ls) = map list_id ls.
Proof.
  revert k. induction ls as [ | l rest IH ]; intros k; cbn; [ done | ].
  destruct (String.eqb (list_id l) listId && is_ranked (status l));
    cbn; by rewrite IH.
Qed.

Lemma appReducerLists_session_ok (state : AppState) (action : ListAction) :
  session_ok state -> session_ok (appReducerLists state action).
Proof.
  intros Hok rs.
  destruct action; cbn [appReducerLists]; repeat case_match;
    cbn [rankingState]; try (apply Hok); discriminate.
Qed.

Lemma current_valid_ids (state : AppState) :
  current_valid state <->
  (forall cur, currentListId state = Some cur ->
               cur ∈ map list_id (lists state)).
Proof.
  unfold current_valid. split; intros H cur Hcur.
  - destruct (H cur Hcur) as (l & Hin & <-).
    apply list_elem_of_fmap. by exists l.
  - apply H in Hcur. apply list_elem_of_fmap in Hcur as (l & -> & Hin).
    by exists l.
Qed.

Lemma current_valid_same_ids (state state' : AppState) :
  map list_id (lists state') = map list_id (lists state) ->
  currentListId state' = currentListId state ->
  current_valid state -> current_valid state'.
Proof.
  rewrite !current_valid_ids. intros Hids Hcur H cur.
  rewrite Hids, Hcur. apply H.
Qed.

Lemma appReducerLists_current_valid (state : AppState)
  (action : ListAction) :
  current_valid state -> current_valid (appReducerLists state action).
Proof.
  intros Hvalid.
  destruct action; cbn [appReducerLists].
  - (* CREATE_LIST *)
    intros cur [= <-]. cbn [lists]. eexists. split.
    + apply elem_of_app. right. apply list_elem_of_singleton. reflexivity.
    + reflexivity.
  - (* SET_CURRENT_LIST *)
    destruct (find_list state listId) as [ l | ] eqn:Hfind; [ | done ].
    apply find_list_Some in Hfind as (Hin & Hid).
    intros cur [= <-]. by exists l.
  - (* UPDATE_LIST_NAME *)
    eapply current_valid_same_ids; [ | | exact Hvalid ]; [ | done ].
    apply map_keeps_list_ids. intros l. by case_match.
  - (* ADD_ITEM *)
    destruct (negb (truthy trimmedText)); [ done | ].
    eapply current_valid_same_ids; [ | | exact Hvalid ]; [ | done ].
    apply addItem_list_ids.
  - (* DELETE_ITEM *)
    eapply current_valid_same_ids; [ | | exact Hvalid ]; [ | done ].
    apply map_keeps_list_ids. intros l. by case_match.
  - (* ADD_ITEM_TO_RANKED_LIST *)
    destruct (negb (truthy trimmedText)); [ done | ].
    eapply current_valid_same_ids; [ | | exact Hvalid ]; [ | done ].
    apply addUnrankedItem_list_ids.
  - (* DELETE_UNRANKED_ITEM *)
    eapply current_valid_same_ids; [ | | exact Hvalid ]; [ | done ].
    apply map_keeps_list_ids. intros l. by case_match.
  - (* COMPLETE_RANKING *)
    eapply current_valid_same_ids; [ | | exact Hvalid ]; [ | done ].
    apply map_keeps_list_ids. intros l. by repeat case_match.
  - (* DELETE_LIST *)
    destruct (List.filter _ (lists state)) as [ | firstLeft rest ] eqn:Hleft.
    + intros cur [= <-]. eexists. split.
      * apply list_elem_of_singleton. reflexivity.
      * reflexivity.
    + intros cur Hcur. cbn [currentListId lists] in *.
      destruct (currentListId state) as [ c | ] eqn:Hc; [ | done ].
      destruct (String.eqb c listId) eqn:Hdel.
      * injection Hcur as <-. exists firstLeft.
        split; [ apply list_elem_of_here | done ].
      * injection Hcur as <-.
        destruct (Hvalid c Hc) as (l & Hin & Hid).
        exists l. split; [ | done ].
        rewrite <- Hleft. apply list_elem_of_In, filter_In.
        split; [ by apply list_elem_of_In | ].
        by rewrite Hid, Hdel.
  - (* LOAD_SHARED_LIST *)
    intros cur [= <-]. cbn [lists]. eexists. split.
    + apply elem_of_app. right. apply list_elem_of_singleton. reflexivity.
    + reflexivity.
Qed.

Lemma appReducerAny_invariants (state : AppState) (action : AnyAction) :
  (session_ok state -> session_ok (appReducerAny state action))
  /\ (current_valid state -> current_valid (appReducerAny state action))
  /\ (lists state <> [] -> lists (appReducerAny state action) <> []).
Proof.
  destruct action as [ a | a ]; cbn [appReducerAny].
  - split; [ apply appReducer_session_ok | ].
    destruct (appReducer_keeps_lists state a) as (Hids & Hcur).
    split; [ by apply current_valid_same_ids | ].
    intros Hne Hnil. rewrite Hnil in Hids.
    destruct (lists state); [ done | discriminate ].
  - split; [ apply appReducerLists_session_ok | ].
    split; [ apply appReducerLists_current_valid | ].
    intros Hne.
    destruct a; cbn [appReducerLists]; repeat case_match; cbn [lists];
      try done;
      try (intros Hnil; apply app_eq_nil in Hnil as (_ & Hnil);
           discriminate);
      try (intros Hnil; apply map_eq_nil in Hnil; done).
    + intros Hnil. apply (f_equal (map list_id)) in Hnil.
      rewrite addItem_list_ids in Hnil. by destruct (lists state).
    + intros Hnil. apply (f_equal (map list_id)) in Hnil.
      rewrite addUnrankedItem_list_ids in Hnil. by destruct (lists state).
Qed.

Lemma dispatchAll_invariants (actions : list AnyAction) (state : AppState) :
  (session_ok state -> session_ok (dispatchAll state actions))
  /\ (current_valid state -> current_valid (dispatchAll state actions))
  /\ (lists state <> [] -> lists (dispatchAll state actions) <> []).
Proof.
  revert state. induction actions as [ | a rest IH ]; intros state.
  - done.
  - cbn [dispatchAll fold_left].
    destruct (appReducerAny_invariants state a) as (H1 & H2 & H3).
    destruct (IH (appReducerAny state a)) as (I1 & I2 & I3).
    unfold dispatchAll in *. auto.
Qed.

Lemma window_ok_reference (s : RankingState) :
  window_ok s ->
  exists reference : string,
    referenceId (getCurrentComparison s) = Some reference
    /\ reference ∈ sortedListItemIds s.
Proof.
  intros (Hlo & Hlh & Hhi).
  pose proof (mid_between _ _ Hlh) as Hmid.
  destruct (lookup_lt_is_Some_2 (sortedListItemIds s)
              (Z.to_nat ((low s + high s) / 2))) as [r Hr]; [ lia | ].
  exists r. split; [ | by eapply list_elem_of_lookup_2 ].
  unfold getCurrentComparison, js_index. cbn [referenceId].
  destruct (_ <? 0) eqn:Hneg; [ lia | done ].
Qed.

(** ** Invariants of every reachable application state *)

(** X17.  Whatever actions are dispatched, the session the state holds (if any)
    has a valid window, so the comparison screen always has a reference
    item that is in the sorted list. *)
Theorem dispatch_session_safe (state : AppState)
  (actions : list AnyAction) (rs : RankingState) :
  session_ok state ->
  rankingState (dispatchAll state actions) = Some rs ->
  window_ok rs
  /\ exists reference : string,
       referenceId (getCurrentComparison rs) = Some reference
       /\ reference ∈ sortedListItemIds rs.
Proof.
  intros Hok Hrs.
  destruct (dispatchAll_invariants actions state) as (Hsess & _).
  pose proof (Session_window rs (Hsess Hok rs Hrs)) as Hwin.
  split; [ done | by apply window_ok_reference ].
Qed.



Lemma dispatch_session_safe_witness :
  let rs := {| sortedListItemIds := ["b"; "a"];
               pendingItemIds := ["c"];
               currentCandidateId := "b";
               low := 0;
               high := 1;
               mode := Some full |} in
  window_ok rs
  /\ exists reference : string,
       referenceId (getCurrentComparison rs) = Some reference
       /\ reference ∈ sortedListItemIds rs.
Proof.
  intros rs.
  apply (dispatch_session_safe exampleState
           [RankingAction (START_RANKING "list-1");
            RankingAction (MAKE_COMPARISON true)] rs).
  - intros rs' Hrs. discriminate.
  - reflexivity.
Defined.



(** ** The reducer and the engine *)

Lemma with_rankingState_same (state : AppState) :
  with_rankingState state (rankingState state) = state.
Proof. by destruct state. Qed.

Lemma fold_MAKE_COMPARISON_run (answers : list bool)
  (state : AppState) (s0 s : RankingState) :
  rankingState state = Some s0 ->
  run s0 answers = Some s ->
  fold_left appReducer (map MAKE_COMPARISON answers) state
  = with_rankingState state (Some s).
Proof.
  revert state s0.
  induction answers as [ | b rest IH ]; intros state s0 Hrs Hrun;
    cbn in Hrun.
  - injection Hrun as <-. cbn [map fold_left].
    by rewrite <- Hrs, with_rankingState_same.
  - destruct (processComparison s0 b) as [ s1 | ] eqn:Hstep; [ | done ].
    cbn [map fold_left appReducer]. rewrite Hrs, Hstep.
    erewrite IH; [ | reflexivity | exact Hrun ].
    reflexivity.
Qed.

Lemma dispatchAll_RankingAction (actions : list Action) (state : AppState) :
  dispatchAll state (map RankingAction actions)
  = fold_left appReducer actions state.
Proof.
  revert state. induction actions as [ | a rest IH ]; intros state.
  - done.
  - cbn [map]. unfold dispatchAll in *. cbn [fold_left appReducerAny].
    apply IH.
Qed.

(** X14.  Dispatching [MAKE_COMPARISON] for each answer does to the session
    of the state what [run] does to the session value, and touches nothing
    else, as long as the session stays active. *)
Theorem MAKE_COMPARISON_mirrors_run (answers : list bool)
  (state : AppState) (s0 s : RankingState) :
  rankingState state = Some s0 ->
  run s0 answers = Some s ->
  dispatchAll state
    (map (fun b => RankingAction (MAKE_COMPARISON b)) answers)
  = with_rankingState state (Some s).
Proof.
  intros Hrs Hrun.
  rewrite <- (map_map MAKE_COMPARISON RankingAction).
  rewrite dispatchAll_RankingAction.
  by eapply fold_MAKE_COMPARISON_run.
Qed.

Lemma MAKE_COMPARISON_mirrors_run_witness :
  let started := appReducer exampleState (START_RANKING "list-1") in
  dispatchAll started
    (map (fun b => RankingAction (MAKE_COMPARISON b)) [true; false])
  = with_rankingState started
      (Some {| sortedListItemIds := ["b"; "a"];
               pendingItemIds := ["c"];
               currentCandidateId := "b";
               low := 1;
               high := 1;
               mode := Some full |}).
Proof.
  intros started.
  apply (MAKE_COMPARISON_mirrors_run [true; false] started
           {| sortedListItemIds := ["a"];
              pendingItemIds := ["b"; "c"];
              currentCandidateId := "b";
              low := 0;
              high := 0;
              mode := Some full |}); reflexivity.
Defined.

Lemma initializeRankingState_Some_length (itemsOfList : list ListItem)
  (s : RankingState) :
  initializeRankingState itemsOfList = Some s ->
  (length itemsOfList <? 2)%nat = false.
Proof.
  unfold initializeRankingState. by destruct (_ <? _)%nat.
Qed.

Lemma START_RANKING_started (state : AppState) (listId : string)
  (l : RankList) (s0 : RankingState) :
  find_list state listId = Some l ->
  initializeRankingState (items l ++ default [] (unrankedItems l))
  = Some s0 ->
  appReducer state (START_RANKING listId)
  = {| lists :=
         map (fun l0 =>
                if String.eqb (list_id l0) listId then
                  {| list_id := list_id l0;
                     list_name := list_name l0;
                     items := items l ++ default [] (unrankedItems l);
                     status := ranking;
                     rankedData := None;
                     unrankedItems := None;
                     createdAt := createdAt l0 |}
                else l0)
           (lists state);
       currentListId := currentListId state;
       rankingState := Some s0;
       currentTab := currentTab state;
       currentView := view_ranking |}.
Proof.
  intros Hfind Hinit.
  pose proof (initializeRankingState_Some_length _ _ Hinit) as Hlen.
  cbn [appReducer]. rewrite Hfind. cbn zeta. by rewrite Hlen, Hinit.
Qed.

(** X15.  A full ranking driven to completion through the reducer: after
    [START_RANKING] on the current list, the answers, and the comparison on
    which the engine returns [null], every list with that id is [ranked],
    holds all the items, and its recorded ranking is the [ordered] of the
    last session value, which has one entry fewer than the list has
    items. *)
Theorem full_ranking_recorded (state : AppState) (listId : string)
  (l : RankList) (answers : list bool) (b : bool) (s0 s : RankingState) :
  find_list state listId = Some l ->
  currentListId state = Some listId ->
  initializeRankingState (items l ++ default [] (unrankedItems l))
  = Some s0 ->
  run s0 answers = Some s ->
  processComparison s b = None ->
  let state' :=
    fold_left appReducer
      (START_RANKING listId
       :: map MAKE_COMPARISON answers ++ [MAKE_COMPARISON b]) state in
  rankingState state' = None
  /\ currentView state' = view_rankedResult
  /\ forall l' : RankList,
       l' ∈ lists state' -> list_id l' = listId ->
       status l' = ranked
       /\ items l' = items l ++ default [] (unrankedItems l)
       /\ rankedData l' = Some {| itemIdsInOrder := sortedListItemIds s |}
       /\ (length (sortedListItemIds s) + 1 = length (items l'))%nat.
Proof.
  intros Hfind Hcur Hinit Hrun Hnull state'. subst state'.
  pose proof (initializeRankingState_Some_length _ _ Hinit) as Hlen.
  destruct (full_session_counts _ _ _ _ Hinit Hrun) as (Hsum & Hone).
  assert (Hpend : length (pendingItemIds s) = 1%nat).
  { destruct (processComparison_cases s b) as [ [_ Heq] | [_ Heq] ];
      rewrite Heq in Hnull; [ discriminate | ].
    destruct (pendingItemIds s) as [ | p0 [ | p1 rest ] ];
      try discriminate; cbn [length] in *; lia. }
  cbn [fold_left]. rewrite fold_left_app.
  rewrite (START_RANKING_started state listId l s0 Hfind Hinit).
  erewrite fold_MAKE_COMPARISON_run; [ | reflexivity | exact Hrun ].
  cbn [fold_left appReducer with_rankingState rankingState lists
         currentListId currentTab currentView].
  rewrite Hnull. cbn [rankingState currentView lists].
  split; [ done | ]. split; [ done | ].
  intros l' Hin Hid.
  apply list_elem_of_fmap in Hin as (l1 & -> & Hin).
  apply list_elem_of_fmap in Hin as (l0 & -> & Hin).
  unfold is_current in *. cbn [with_rankingState currentListId] in *.
  assert (Hid0 : list_id l0 = listId).
  { revert Hid. repeat case_match; cbn [list_id]; try done.
    all: intros <-; repeat case_match; done. }
  assert (Heq0 : String.eqb (list_id l0) listId = true)
    by (by apply String.eqb_eq).
  clear Hid. rewrite Hcur, Heq0. cbn [list_id]. rewrite Heq0.
  cbn [status items rankedData]. repeat split. lia.
Qed.

Lemma full_ranking_recorded_witness :
  let l := {| list_id := "list-1";
              list_name := "Test List";
              items := [mkListItem "a" "A"; mkListItem "b" "B";
                        mkListItem "c" "C"];
              status := unranked;
              rankedData := None;
              unrankedItems := None;
              createdAt := 0 |} in
  let s := {| sortedListItemIds := ["b"; "a"];
              pendingItemIds := ["c"];
              currentCandidateId := "b";
              low := 1;
              high := 1;
              mode := Some full |} in
  let state' :=
    fold_left appReducer
      (START_RANKING "list-1"
       :: map MAKE_COMPARISON [true; false] ++ [MAKE_COMPARISON true])
      exampleState in
  rankingState state' = None
  /\ currentView state' = view_rankedResult
  /\ forall l' : RankList,
       l' ∈ lists state' -> list_id l' = "list-1" ->
       status l' = ranked
       /\ items l' = items l ++ default [] (unrankedItems l)
       /\ rankedData l' = Some {| itemIdsInOrder := sortedListItemIds s |}
       /\ (length (sortedListItemIds s) + 1 = length (items l'))%nat.
Proof.
  intros l s.
  apply (full_ranking_recorded exampleState "list-1" l [true; false] true
           {| sortedListItemIds := ["a"];
              pendingItemIds := ["b"; "c"];
              currentCandidateId := "b";
              low := 0;
              high := 0;
              mode := Some full |} s); reflexivity.
Defined.

(** ** When the start actions do nothing *)

(** X16.  [START_PARTIAL_RANKING] leaves the state as it is when the list does
    not exist, has no ranking, has no unranked items, or has an empty
    ranking and a single unranked item (the engine refuses to rank one
    item alone). *)
Theorem START_PARTIAL_RANKING_refused (state : AppState) (listId : string) :
  match find_list state listId with
  | None => True
  | Some l =>
      rankedData l = None
      \/ unrankedItems l = None
      \/ unrankedItems l = Some []
      \/ (exists only : ListItem,
             rankedData l = Some {| itemIdsInOrder := [] |}
             /\ unrankedItems l = Some [only])
  end ->
  appReducer state (START_PARTIAL_RANKING listId) = state.
Proof.
  cbn [appReducer].
  destruct (find_list state listId) as [ l | ]; [ | done ].
  intros [ -> | [ -> | [ -> | (only & -> & ->) ] ] ]; try done.
  - by destruct (rankedData l).
  - by destruct (rankedData l).
Qed.

Lemma START_PARTIAL_RANKING_refused_witness :
  let state :=
    {| lists := [ {| list_id := "list-1";
                     list_name := "Test List";
                     items := [];
                     status := ranked;
                     rankedData := Some {| itemIdsInOrder := [] |};
                     unrankedItems := Some [mkListItem "x" "X"];
                     createdAt := 0 |} ];
       currentListId := Some "list-1";
       rankingState := None;
       currentTab := tab_current;
       currentView := view_rankedResult |} in
  appReducer state (START_PARTIAL_RANKING "list-1") = state.
Proof.
  intros state. apply START_PARTIAL_RANKING_refused.
  vm_compute. right. right. right. eexists. split; reflexivity.
Defined.

(** ** Leaving a ranking with [COMPLETE_RANKING] *)

Lemma processComparison_mode (s s' : RankingState) (b : bool) :
  processComparison s b = Some s' -> mode s' = mode s.
Proof.
  unfold processComparison. repeat case_match; try discriminate;
    by intros [= <-].
Qed.

Lemma run_mode (s0 s : RankingState) (answers : list bool) :
  run s0 answers = Some s -> mode s = mode s0.
Proof.
  revert s0. induction answers as [ | b rest IH ]; intros s0; cbn.
  - by intros [= <-].
  - destruct (processComparison s0 b) as [ s1 | ] eqn:Hstep; [ | done ].
    intros Hrun. rewrite (IH _ Hrun). by eapply processComparison_mode.
Qed.

Lemma includes_spec (ids : list string) (x : string) :
  includes ids x = true <-> x ∈ ids.
Proof.
  unfold includes. rewrite existsb_exists. split.
  - intros (y & Hin & Heq). apply String.eqb_eq in Heq as ->.
    by apply list_elem_of_In.
  - intros Hin. exists x. split; [ by apply list_elem_of_In | ].
    apply String.eqb_refl.
Qed.

(** X20.  After [COMPLETE_RANKING] no session is held, and no list that is
    the current one is left in status [ranking]. *)
Theorem COMPLETE_RANKING_leaves_ranking (state : AppState) :
  let state' := appReducerLists state COMPLETE_RANKING in
  rankingState state' = None
  /\ forall l' : RankList,
       l' ∈ lists state' ->
       is_current state' l' = true ->
       status l' <> ranking.
Proof.
  cbn zeta. cbn [appReducerLists lists rankingState].
  split; [ done | ]. intros l' Hin Hcur.
  apply list_elem_of_fmap in Hin as (l0 & -> & Hin).
  unfold is_current in *. cbn [currentListId] in Hcur.
  destruct (currentListId state) as [ cur | ]; [ | done ].
  destruct (String.eqb (list_id l0) cur) eqn:Hid0; cbn [negb orb].
  - destruct (status l0) eqn:Hst; cbn [is_ranking negb];
      try (rewrite Hst; discriminate).
    by repeat case_match.
  - exfalso. revert Hcur. cbn [negb orb]. by rewrite Hid0.
Qed.

Lemma COMPLETE_RANKING_leaves_ranking_witness :
  let state :=
    {| lists := [ {| list_id := "list-1";
                     list_name := "Test List";
                     items := [mkListItem "a" "A"; mkListItem "b" "B";
                               mkListItem "c" "C"];
                     status := ranking;
                     rankedData := None;
                     unrankedItems := None;
                     createdAt := 0 |} ];
       currentListId := Some "list-1";
       rankingState :=
         Some {| sortedListItemIds := ["a"; "b"];
                 pendingItemIds := [];
                 currentCandidateId := "c";
                 low := 0;
                 high := 1;
                 mode := Some partial |};
       currentTab := tab_current;
       currentView := view_ranking |} in
  let l' := {| list_id := "list-1";
               list_name := "Test List";
               items := [mkListItem "a" "A"; mkListItem "b" "B"];
               status := ranked;
               rankedData := Some {| itemIdsInOrder := ["a"; "b"] |};
               unrankedItems := None;
               createdAt := 0 |} in
  rankingState (appReducerLists state COMPLETE_RANKING) = None
  /\ status l' <> ranking.
Proof.
  intros state l'.
  destruct (COMPLETE_RANKING_leaves_ranking state) as (Hnone & Hstatus).
  split; [ exact Hnone | ].
  apply (Hstatus l').
  - apply list_elem_of_here.
  - reflexivity.
Defined.

Lemma START_PARTIAL_RANKING_started (state : AppState) (listId : string)
  (l : RankList) (rd : RankedListData) (u : list ListItem)
  (s0 : RankingState) :
  find_list state listId = Some l ->
  rankedData l = Some rd ->
  unrankedItems l = Some u ->
  initializePartialRankingState (itemIdsInOrder rd) u = Some s0 ->
  appReducer state (START_PARTIAL_RANKING listId)
  = {| lists :=
         map (fun l0 =>
                if String.eqb (list_id l0) listId then
                  {| list_id := list_id l0;
                     list_name := list_name l0;
                     items := items l0 ++ default [] (unrankedItems l0);
                     status := ranking;
                     rankedData := rankedData l0;
                     unrankedItems := unrankedItems l0;
                     createdAt := createdAt l0 |}
                else l0)
           (lists state);
       currentListId := currentListId state;
       rankingState := Some s0;
       currentTab := currentTab state;
       currentView := view_ranking |}.
Proof.
  intros Hfind Hrd Hu Hinit.
  cbn [appReducer]. rewrite Hfind, Hrd, Hu, Hinit.
  destruct u as [ | u0 us ]; [ discriminate | done ].
Qed.

Lemma filter_Permutation_bool {A : Type} (p : A -> bool) (l l' : list A) :
  l ≡ₚ l' -> List.filter p l ≡ₚ List.filter p l'.
Proof.
  induction 1 as [ | x l l' _ IH | x y l | l l' l'' _ IH1 _ IH2 ]; cbn.
  - done.
  - destruct (p x); [ by f_equiv | done ].
  - destruct (p x), (p y); try done. apply perm_swap.
  - by etrans.
Qed.

Lemma filter_map_item_id (p : string -> bool) (l : list ListItem) :
  map item_id (List.filter (fun item => p (item_id item)) l)
  = List.filter p (map item_id l).
Proof.
  induction l as [ | x l IH ]; cbn; [ done | ].
  destruct (p (item_id x)); cbn; by rewrite IH.
Qed.

Lemma filter_all {A : Type} (p : A -> bool) (l : list A) :
  (forall x, x ∈ l -> p x = true) -> List.filter p l = l.
Proof.
  induction l as [ | x l IH ]; intros H; cbn; [ done | ].
  rewrite (H x) by apply list_elem_of_here.
  f_equal. apply IH. intros y Hy. apply H. by apply list_elem_of_further.
Qed.

Lemma filter_none {A : Type} (p : A -> bool) (l : list A) :
  (forall x, x ∈ l -> p x = false) -> List.filter p l = [].
Proof.
  induction l as [ | x l IH ]; intros H; cbn; [ done | ].
  rewrite (H x) by apply list_elem_of_here.
  apply IH. intros y Hy. apply H. by apply list_elem_of_further.
Qed.

(** Removing from a duplicate-free list of identifiers those held in
    [pending] or as candidate leaves the identifiers of [ordered]. *)
Lemma filter_leaves_sorted (ids sortedIds toRemove : list string) :
  ids ≡ₚ sortedIds ++ toRemove ->
  NoDup ids ->
  List.filter (fun x => negb (includes toRemove x)) ids ≡ₚ sortedIds.
Proof.
  intros Hperm Hnd. rewrite Hperm in Hnd.
  apply NoDup_app in Hnd as (_ & Hdisj & _).
  rewrite (filter_Permutation_bool _ _ _ Hperm), List.filter_app.
  rewrite filter_all, filter_none, app_nil_r; [ done | | ].
  - intros x Hx. apply negb_false_iff. by apply includes_spec.
  - intros x Hx. apply negb_true_iff.
    destruct (includes toRemove x) eqn:Hinc; [ | done ].
    apply includes_spec in Hinc. by destruct (Hdisj x Hx).
Qed.

Lemma truthy_nonempty (x : string) : x <> EmptyString -> truthy x = true.
Proof. by destruct x. Qed.

(** X21.  Leaving a partial ranking keeps the list consistent.  Take a ranked
    list whose items are exactly the ranked identifiers, with new items
    whose identifiers are non-empty and distinct from each other and from
    the ranked ones.  After [START_PARTIAL_RANKING], any answers that keep
    the session active, and [COMPLETE_RANKING], the list is [ranked]
    again, its ranking is the [ordered] of the session, its unranked items
    are gone, and its items are exactly the ranked identifiers: the items
    not yet inserted have been removed. *)
Theorem partial_cancel_consistent (state : AppState) (listId : string)
  (l : RankList) (rd : RankedListData) (u : list ListItem)
  (answers : list bool) (s0 s : RankingState) :
  find_list state listId = Some l ->
  currentListId state = Some listId ->
  rankedData l = Some rd ->
  itemIdsInOrder rd <> [] ->
  unrankedItems l = Some u ->
  map item_id (items l) ≡ₚ itemIdsInOrder rd ->
  NoDup (itemIdsInOrder rd ++ map item_id u) ->
  (forall x : string, x ∈ map item_id u -> x <> EmptyString) ->
  initializePartialRankingState (itemIdsInOrder rd) u = Some s0 ->
  run s0 answers = Some s ->
  let state' :=
    appReducerLists
      (fold_left appReducer
         (START_PARTIAL_RANKING listId :: map MAKE_COMPARISON answers)
         state)
      COMPLETE_RANKING in
  rankingState state' = None
  /\ currentView state' = view_rankedResult
  /\ forall i : nat,
       lists state !! i = Some l ->
       exists l' : RankList,
         lists state' !! i = Some l'
         /\ status l' = ranked
         /\ rankedData l'
            = Some {| itemIdsInOrder := sortedListItemIds s |}
         /\ unrankedItems l' = None
         /\ map item_id (items l') ≡ₚ sortedListItemIds s.
Proof.
  intros Hfind Hcur Hrd Hne Hu Hitems Hnodup Htruthy Hinit Hrun state'.
  subst state'.
  (* the session is in partial mode and holds the given identifiers *)
  pose proof (partial_session_held_ids _ _ _ _ _ Hne Hinit Hrun) as Hheld.
  assert (Hmode : mode s = Some partial).
  { rewrite (run_mode _ _ _ Hrun).
    rewrite initializePartialRankingState_reads in Hinit.
    destruct u as [ | u0 us ]; [ discriminate | ].
    destruct (itemIdsInOrder rd) as [ | e0 existing ]; [ done | ].
    by injection Hinit as <-. }
  assert (Hsub : itemIdsInOrder rd `sublist_of` sortedListItemIds s).
  { pose proof (run_sublist _ _ _ Hrun) as Hsub.
    rewrite initializePartialRankingState_reads in Hinit.
    destruct u as [ | u0 us ]; [ discriminate | ].
    destruct (itemIdsInOrder rd) as [ | e0 existing ]; [ done | ].
    by injection Hinit as <-. }
  assert (Hnd : NoDup (held_ids s)) by (by rewrite Hheld).
  unfold held_ids in Hnd, Hheld.
  pose proof Hnd as Hnd'.
  apply NoDup_app in Hnd' as (_ & Hdisj & _).
  assert (Hcand : truthy (currentCandidateId s) = true).
  { apply truthy_nonempty, Htruthy.
    assert (Hin : currentCandidateId s
                  ∈ itemIdsInOrder rd ++ map item_id u).
    { rewrite <- Hheld. apply elem_of_app. right. apply elem_of_app.
      right. by apply list_elem_of_singleton. }
    apply elem_of_app in Hin as [ Hin | Hin ]; [ | done ].
    exfalso. eapply (Hdisj (currentCandidateId s)).
    - by eapply elem_of_sublist.
    - apply elem_of_app. right. by apply list_elem_of_singleton. }
  (* the three stages of the dispatch *)
  apply find_list_Some in Hfind as Hl. destruct Hl as (_ & Hid).
  cbn [fold_left].
  rewrite (START_PARTIAL_RANKING_started state listId l rd u s0
             Hfind Hrd Hu Hinit).
  erewrite fold_MAKE_COMPARISON_run; [ | reflexivity | exact Hrun ].
  cbn [appReducerLists with_rankingState rankingState lists currentListId
         currentView].
  rewrite Hmode. split; [ done | ]. split; [ done | ].
  intros i Hi.
  rewrite !list_lookup_fmap, Hi. cbn [fmap option_fmap option_map].
  eexists. split; [ reflexivity | ].
  unfold is_current. cbn [with_rankingState currentListId].
  rewrite ?Hcur.
  assert (Heq : String.eqb (list_id l) listId = true)
    by (by apply String.eqb_eq).
  rewrite Heq. cbn [list_id status is_ranking negb orb]. rewrite ?Heq.
  cbn [negb orb status rankedData unrankedItems items].
  repeat split.
  rewrite Hcand, Hu. cbn [default].
  rewrite (filter_map_item_id
             (fun x => negb (includes (pendingItemIds s
                                       ++ [currentCandidateId s]) x))).
  apply filter_leaves_sorted.
  - rewrite map_app, Hitems. by rewrite Hheld.
  - rewrite map_app, Hitems. done.
Qed.

Lemma partial_cancel_consistent_witness :
  let l := {| list_id := "list-1";
              list_name := "Test List";
              items := [mkListItem "b" "B"; mkListItem "a" "A"];
              status := ranked;
              rankedData := Some {| itemIdsInOrder := ["a"; "b"] |};
              unrankedItems :=
                Some [mkListItem "c" "C"; mkListItem "d" "D";
                      mkListItem "e" "E"];
              createdAt := 0 |} in
  let state := {| lists := [l];
                  currentListId := Some "list-1";
                  rankingState := None;
                  currentTab := tab_current;
                  currentView := view_rankedResult |} in
  let state' :=
    appReducerLists
      (fold_left appReducer
         (START_PARTIAL_RANKING "list-1"
          :: map MAKE_COMPARISON [false; true; false])
         state)
      COMPLETE_RANKING in
  rankingState state' = None
  /\ currentView state' = view_rankedResult
  /\ forall i : nat,
       lists state !! i = Some l ->
       exists l' : RankList,
         lists state' !! i = Some l'
         /\ status l' = ranked
         /\ rankedData l' = Some {| itemIdsInOrder := ["a"; "c"; "b"] |}
         /\ unrankedItems l' = None
         /\ map item_id (items l') ≡ₚ ["a"; "c"; "b"].
Proof.
  intros l state.
  apply (partial_cancel_consistent state "list-1" l
           {| itemIdsInOrder := ["a"; "b"] |}
           [mkListItem "c" "C"; mkListItem "d" "D"; mkListItem "e" "E"]
           [false; true; false]
           {| sortedListItemIds := ["a"; "b"];
              pendingItemIds := ["d"; "e"];
              currentCandidateId := "c";
              low := 0;
              high := 1;
              mode := Some partial |}
           {| sortedListItemIds := ["a"; "c"; "b"];
              pendingItemIds := ["e"];
              currentCandidateId := "d";
              low := 2;
              high := 2;
              mode := Some partial |}).
  - reflexivity.
  - reflexivity.
  - reflexivity.
  - discriminate.
  - reflexivity.
  - apply perm_swap.
  - refine (bool_decide_unpack _ _). vm_compute. exact I.
  - apply Forall_forall. repeat constructor; discriminate.
  - reflexivity.
  - reflexivity.
Defined.

(** X22.  Leaving a full ranking does not bring the previous ranking back.
    After [START_RANKING] on the current list, any answers that keep the
    session active, and [COMPLETE_RANKING], every list with that id is
    [unranked], has no ranking and no unranked items, and its items are
    the former items followed by the former unranked items. *)
Theorem full_cancel_unranked (state : AppState) (listId : string)
  (l : RankList) (answers : list bool) (s0 s : RankingState) :
  find_list state listId = Some l ->
  currentListId state = Some listId ->
  initializeRankingState (items l ++ default [] (unrankedItems l))
  = Some s0 ->
  run s0 answers = Some s ->
  let state' :=
    appReducerLists
      (fold_left appReducer
         (START_RANKING listId :: map MAKE_COMPARISON answers) state)
      COMPLETE_RANKING in
  rankingState state' = None
  /\ currentView state' = view_currentList
  /\ forall l' : RankList,
       l' ∈ lists state' -> list_id l' = listId ->
       status l' = unranked
       /\ items l' = items l ++ default [] (unrankedItems l)
       /\ rankedData l' = None
       /\ unrankedItems l' = None.
Proof.
  intros Hfind Hcur Hinit Hrun state'. subst state'.
  assert (Hmode : mode s = Some full).
  { rewrite (run_mode _ _ _ Hrun).
    rewrite initializeRankingState_reads in Hinit.
    destruct (items l ++ default [] (unrankedItems l))
      as [ | i0 [ | i1 rest ] ]; try discriminate.
    by injection Hinit as <-. }
  cbn [fold_left].
  rewrite (START_RANKING_started state listId l s0 Hfind Hinit).
  erewrite fold_MAKE_COMPARISON_run; [ | reflexivity | exact Hrun ].
  cbn [appReducerLists with_rankingState rankingState lists currentListId
         currentView].
  rewrite Hmode. split; [ done | ]. split; [ done | ].
  intros l' Hin Hid.
  apply list_elem_of_fmap in Hin as (l1 & -> & Hin).
  apply list_elem_of_fmap in Hin as (l0 & -> & Hin).
  unfold is_current in *. cbn [with_rankingState currentListId] in *.
  rewrite ?Hcur in *.
  assert (Hid0 : list_id l0 = listId).
  { revert Hid. repeat case_match; cbn [list_id]; try done.
    all: intros <-; repeat case_match; done. }
  assert (Heq0 : String.eqb (list_id l0) listId = true)
    by (by apply String.eqb_eq).
  clear Hid. rewrite Heq0. cbn [list_id status is_ranking negb orb].
  rewrite ?Heq0. cbn [negb orb status items rankedData unrankedItems].
  done.
Qed.

Lemma full_cancel_unranked_witness :
  let l := {| list_id := "list-1";
              list_name := "Test List";
              items := [mkListItem "a" "A"; mkListItem "b" "B"];
              status := ranked;
              rankedData := Some {| itemIdsInOrder := ["b"; "a"] |};
              unrankedItems := Some [mkListItem "c" "C"];
              createdAt := 0 |} in
  let state := {| lists := [l];
                  currentListId := Some "list-1";
                  rankingState := None;
                  currentTab := tab_current;
                  currentView := view_rankedResult |} in
  let state' :=
    appReducerLists
      (fold_left appReducer
         (START_RANKING "list-1" :: map MAKE_COMPARISON [true]) state)
      COMPLETE_RANKING in
  rankingState state' = None
  /\ currentView state' = view_currentList
  /\ forall l' : RankList,
       l' ∈ lists state' -> list_id l' = "list-1" ->
       status l' = unranked
       /\ items l' = items l ++ default [] (unrankedItems l)
       /\ rankedData l' = None
       /\ unrankedItems l' = None.
Proof.
  intros l state.
  apply (full_cancel_unranked state "list-1" l [true]
           {| sortedListItemIds := ["a"];
              pendingItemIds := ["b"; "c"];
              currentCandidateId := "b";
              low := 0;
              high := 0;
              mode := Some full |}
           {| sortedListItemIds := ["b"; "a"];
              pendingItemIds := ["c"];
              currentCandidateId := "b";
              low := 0;
              high := 1;
              mode := Some full |}); reflexivity.
Defined.

(** * Properties of the sharing payloads *)

Lemma find_by_id (l : list ListItem) (item : ListItem) :
  NoDup (map item_id l) ->
  item ∈ l ->
  List.find (fun i => String.eqb (item_id i) (item_id item)) l = Some item.
Proof.
  induction l as [ | x l IH ]; intros Hnd Hin.
  - by apply elem_of_nil in Hin.
  - cbn [map] in Hnd. apply NoDup_cons in Hnd as (Hx & Hnd).
    cbn [List.find].
    destruct (String.eqb (item_id x) (item_id item)) eqn:Heq.
    + apply String.eqb_eq in Heq.
      apply elem_of_cons in Hin as [ -> | Hin ]; [ done | ].
      exfalso. apply Hx. rewrite Heq. apply list_elem_of_fmap. by exists item.
    + apply elem_of_cons in Hin as [ -> | Hin ].
      * by rewrite String.eqb_refl in Heq.
      * by apply IH.
Qed.

Lemma textOfId_items (list : RankList) :
  NoDup (map item_id (items list)) ->
  map (textOfId list) (map item_id (items list))
  = map item_text (items list).
Proof.
  intros Hnd. rewrite map_map. apply map_ext_in. intros item Hin.
  unfold textOfId. rewrite find_by_id; [ done | done | ].
  by apply list_elem_of_In.
Qed.

Lemma itemsFromTexts_ids (gen : nat -> string) (k : nat)
  (texts : list string) :
  map item_id (itemsFromTexts gen k texts)
  = map gen (seq k (length texts)).
Proof.
  revert k. induction texts as [ | t rest IH ]; intros k; cbn; [ done | ].
  by rewrite IH.
Qed.

Lemma itemsFromTexts_texts (gen : nat -> string) (k : nat)
  (texts : list string) :
  map item_text (itemsFromTexts gen k texts) = texts.
Proof.
  revert k. induction texts as [ | t rest IH ]; intros k; cbn; [ done | ].
  by rewrite IH.
Qed.

(** X23.  A payload with a name survives the trip through a list: building a
    list from it and a payload of the same type from that list gives the
    payload back, provided the identifiers generated for the items are
    pairwise distinct. *)
Theorem payload_list_roundtrip (gen : nat -> string) (now : Z)
  (payload : SharePayload) :
  payload_name payload <> EmptyString ->
  NoDup (map gen (seq 0 (length (payload_items payload)))) ->
  createPayloadFromList (createListFromPayload gen now payload)
    (payload_type payload)
  = payload.
Proof.
  intros Hname Hnd. destruct payload as [ type name texts ].
  cbn [payload_type payload_name payload_items] in *.
  unfold createPayloadFromList, createListFromPayload.
  cbn [payload_type payload_name payload_items list_name rankedData items].
  rewrite truthy_nonempty by done. f_equal.
  destruct type.
  - apply itemsFromTexts_texts.
  - set (l := {| list_id := _ |}).
    change (itemsFromTexts gen 0 texts) with (items l).
    rewrite textOfId_items.
    + apply itemsFromTexts_texts.
    + cbn [items l]. by rewrite itemsFromTexts_ids.
Qed.

Lemma payload_list_roundtrip_witness :
  let gen := fun k : nat => String.concat "-" (repeat "id" (S k)) in
  let payload := {| payload_type := payload_ranked;
                    payload_name := "Fruit";
                    payload_items := ["Apple"; "Banana"; "Cherry"] |} in
  createPayloadFromList (createListFromPayload gen 7 payload) payload_ranked
  = payload.
Proof.
  intros gen payload.
  apply (payload_list_roundtrip gen 7 payload).
  - discriminate.
  - refine (bool_decide_unpack _ _). vm_compute. exact I.
Defined.

Lemma find_absent (l : list ListItem) (ident : string) :
  ident ∉ map item_id l ->
  List.find (fun i => String.eqb (item_id i) ident) l = None.
Proof.
  induction l as [ | x l IH ]; intros Hnot; cbn; [ done | ].
  cbn [map] in Hnot. apply not_elem_of_cons in Hnot as (Hne & Hnot).
  destruct (String.eqb (item_id x) ident) eqn:Heq.
  - apply String.eqb_eq in Heq. congruence.
  - by apply IH.
Qed.

(** X24.  Sharing a ranked list shares its items in ranked order.  For a
    list with a ranking and pairwise distinct item identifiers, the ranked
    payload has one entry per ranked identifier, in ranked order: the text
    of the item with that identifier, or the empty string when no item has
    it.  When the ranking is a permutation of the item identifiers, the
    payload holds exactly the texts of the items. *)
Theorem ranked_payload_texts (list : RankList) (rd : RankedListData) :
  rankedData list = Some rd ->
  NoDup (map item_id (items list)) ->
  let shared := payload_items (createPayloadFromList list payload_ranked) in
  length shared = length (itemIdsInOrder rd)
  /\ (forall (k : nat) (item : ListItem),
        itemIdsInOrder rd !! k = Some (item_id item) ->
        item ∈ items list ->
        shared !! k = Some (item_text item))
  /\ (forall (k : nat) (ident : string),
        itemIdsInOrder rd !! k = Some ident ->
        ident ∉ map item_id (items list) ->
        shared !! k = Some EmptyString)
  /\ (itemIdsInOrder rd ≡ₚ map item_id (items list) ->
      shared ≡ₚ map item_text (items list)).
Proof.
  intros Hrd Hnd shared. subst shared.
  unfold createPayloadFromList. rewrite Hrd. cbn [payload_items].
  split; [ by rewrite length_map | ].
  split; [ | split ].
  - intros k item Hk Hin.
    rewrite list_lookup_fmap, Hk. cbn. f_equal.
    unfold textOfId. by rewrite find_by_id.
  - intros k ident Hk Hnot.
    rewrite list_lookup_fmap, Hk. cbn. f_equal.
    unfold textOfId. by rewrite find_absent.
  - intros Hperm. rewrite Hperm. by rewrite textOfId_items.
Qed.

Lemma ranked_payload_texts_witness :
  let list := {| list_id := "list-1";
                 list_name := "Fruit";
                 items := [mkListItem "a" "Apple"; mkListItem "b" "Banana";
                           mkListItem "c" "Cherry"];
                 status := ranked;
                 rankedData := Some {| itemIdsInOrder := ["b"; "x"; "a"] |};
                 unrankedItems := None;
                 createdAt := 0 |} in
  let shared := payload_items (createPayloadFromList list payload_ranked) in
  length shared = length ["b"; "x"; "a"]
  /\ (forall (k : nat) (item : ListItem),
        ["b"; "x"; "a"] !! k = Some (item_id item) ->
        item ∈ items list ->
        shared !! k = Some (item_text item))
  /\ (forall (k : nat) (ident : string),
        ["b"; "x"; "a"] !! k = Some ident ->
        ident ∉ map item_id (items list) ->
        shared !! k = Some EmptyString)
  /\ (["b"; "x"; "a"] ≡ₚ map item_id (items list) ->
      shared ≡ₚ map item_text (items list)).
Proof.
  intros list.
  apply (ranked_payload_texts list {| itemIdsInOrder := ["b"; "x"; "a"] |}).
  - reflexivity.
  - refine (bool_decide_unpack _ _). vm_compute. exact I.
Defined.

(** * Further properties of partial sessions *)

Lemma processComparison_queue (s s' : RankingState) (b : bool)
  (newIds : list string) (k : nat) :
  processComparison s b = Some s' ->
  newIds !! k = Some (currentCandidateId s) ->
  pendingItemIds s = drop (S k) newIds ->
  exists k' : nat,
    newIds !! k' = Some (currentCandidateId s')
    /\ pendingItemIds s' = drop (S k') newIds
    /\ (length (sortedListItemIds s') + k
        = length (sortedListItemIds s) + k')%nat.
Proof.
  intros Hstep Hk Hpend.
  destruct (processComparison_cases s b) as [ [_ Heq] | [_ Heq] ];
    rewrite Heq in Hstep.
  - injection Hstep as <-. exists k. by repeat split.
  - destruct (pendingItemIds s) as [ | p0 [ | p1 rest ] ] eqn:Hp;
      try discriminate.
    injection Hstep as <-. exists (S k).
    cbn [sortedListItemIds pendingItemIds currentCandidateId].
    assert (Hp0 : drop (S k) newIds !! 0%nat = Some p0)
      by (by rewrite <- Hpend).
    rewrite lookup_drop, Nat.add_0_r in Hp0.
    repeat split.
    + done.
    + change (p1 :: rest) with (drop 1 (p0 :: p1 :: rest)).
      rewrite Hpend, drop_drop. f_equal. lia.
    + rewrite splice_insert_length. lia.
Qed.

(** X11.  New items are placed first in, first out.  In every session value
    reached from [initializePartialRankingState] on a non-empty order,
    the candidate is the [k]-th new identifier for some [k], the pending
    identifiers are the new ones after it in their original order, and
    [k] new identifiers have been inserted into [ordered]. *)
Theorem partial_candidates_in_order
  (existingOrder : list string) (newItems : list ListItem)
  (s0 s : RankingState) (answers : list bool) :
  existingOrder <> [] ->
  initializePartialRankingState existingOrder newItems = Some s0 ->
  run s0 answers = Some s ->
  exists k : nat,
    map item_id newItems !! k = Some (currentCandidateId s)
    /\ pendingItemIds s = drop (S k) (map item_id newItems)
    /\ length (sortedListItemIds s) = (length existingOrder + k)%nat.
Proof.
  intros Hne Hinit Hrun.
  assert (Hgen :
    forall (answers : list bool) (s1 : RankingState) (k : nat),
      map item_id newItems !! k = Some (currentCandidateId s1) ->
      pendingItemIds s1 = drop (S k) (map item_id newItems) ->
      length (sortedListItemIds s1) = (length existingOrder + k)%nat ->
      run s1 answers = Some s ->
      exists k' : nat,
        map item_id newItems !! k' = Some (currentCandidateId s)
        /\ pendingItemIds s = drop (S k') (map item_id newItems)
        /\ length (sortedListItemIds s) = (length existingOrder + k')%nat).
  { clear. induction answers as [ | b rest IH ];
      intros s1 k Hk Hpend Hlen Hrun; cbn in Hrun.
    - injection Hrun as <-. by exists k.
    - destruct (processComparison s1 b) as [ s2 | ] eqn:Hstep; [ | done ].
      destruct (processComparison_queue s1 s2 b _ k Hstep Hk Hpend)
        as (k' & Hk' & Hpend' & Hlen').
      apply (IH s2 k'); [ done | done | lia | done ]. }
  rewrite initializePartialRankingState_reads in Hinit.
  destruct newItems as [ | n0 rest ]; [ discriminate | ].
  destruct existingOrder as [ | e0 existing ]; [ done | ].
  injection Hinit as <-.
  refine (Hgen answers _ 0%nat _ _ _ Hrun); cbn; try done; lia.
Qed.

Lemma partial_candidates_in_order_witness :
  exists k : nat,
    map item_id [mkListItem "c" "C"; mkListItem "d" "D"; mkListItem "e" "E"]
      !! k = Some "d"
    /\ ["e"]
       = drop (S k)
           (map item_id
              [mkListItem "c" "C"; mkListItem "d" "D"; mkListItem "e" "E"])
    /\ length ["a"; "c"; "b"] = (length ["a"; "b"] + k)%nat.
Proof.
  apply (partial_candidates_in_order ["a"; "b"]
           [mkListItem "c" "C"; mkListItem "d" "D"; mkListItem "e" "E"]
           {| sortedListItemIds := ["a"; "b"];
              pendingItemIds := ["d"; "e"];
              currentCandidateId := "c";
              low := 0;
              high := 1;
              mode := Some partial |}
           {| sortedListItemIds := ["a"; "c"; "b"];
              pendingItemIds := ["e"];
              currentCandidateId := "d";
              low := 2;
              high := 2;
              mode := Some partial |}
           [false; true; false]).
  - discriminate.
  - reflexivity.
  - reflexivity.
Defined.

(** X12.  In partial mode with pairwise distinct identifiers the comparison
    shown never pairs an item with itself: the reference is an element of
    [ordered] and differs from the candidate. *)
Theorem partial_comparison_distinct
  (existingOrder : list string) (newItems : list ListItem)
  (s0 s : RankingState) (answers : list bool) :
  existingOrder <> [] ->
  NoDup (existingOrder ++ map item_id newItems) ->
  initializePartialRankingState existingOrder newItems = Some s0 ->
  run s0 answers = Some s ->
  exists reference : string,
    referenceId (getCurrentComparison s) = Some reference
    /\ reference ∈ sortedListItemIds s
    /\ reference <> candidateId (getCurrentComparison s).
Proof.
  intros Hne Hnodup Hinit Hrun.
  pose proof (partial_session_held_ids _ _ _ _ _ Hne Hinit Hrun) as Hperm.
  assert (Hnd : NoDup (held_ids s)) by (by rewrite Hperm).
  unfold held_ids in Hnd. apply NoDup_app in Hnd as (_ & Hdisj & _).
  assert (Hwin : window_ok s).
  { apply Session_window. eapply run_Session; [ | exact Hrun ].
    by eapply Session_partial. }
  destruct (window_ok_reference s Hwin) as (r & Hr & Hin).
  exists r. repeat split; [ done | done | ].
  cbn [getCurrentComparison candidateId]. intros ->.
  apply (Hdisj _ Hin). apply elem_of_app. right.
  by apply list_elem_of_singleton.
Qed.

Lemma partial_comparison_distinct_witness :
  let s := {| sortedListItemIds := ["a"; "c"; "b"];
              pendingItemIds := ["e"];
              currentCandidateId := "d";
              low := 2;
              high := 2;
              mode := Some partial |} in
  exists reference : string,
    referenceId (getCurrentComparison s) = Some reference
    /\ reference ∈ sortedListItemIds s
    /\ reference <> candidateId (getCurrentComparison s).
Proof.
  intros s.
  apply (partial_comparison_distinct ["a"; "b"]
           [mkListItem "c" "C"; mkListItem "d" "D"; mkListItem "e" "E"]
           {| sortedListItemIds := ["a"; "b"];
              pendingItemIds := ["d"; "e"];
              currentCandidateId := "c";
              low := 0;
              high := 1;
              mode := Some partial |}
           s [false; true; false]).
  - discriminate.
  - refine (bool_decide_unpack _ _). vm_compute. exact I.
  - reflexivity.
  - reflexivity.
Defined.

(** * Where consistent answers put a candidate *)

(** X25.  Insertion is stable.  In a session started on an order sorted by
    a score and answered according to that score, when a comparison places
    the candidate, everything put before it scores at most the candidate
    and everything put after it scores strictly more: the candidate goes
    after all the identifiers it ties with. *)
Theorem insertion_after_ties (rank : string -> Z)
  (existingRankedIds : list string) (newItems : list ListItem)
  (answers : list bool) (s0 s s' : RankingState) :
  sorted_by rank existingRankedIds ->
  initializePartialRankingState existingRankedIds newItems = Some s0 ->
  answers_follow rank s0 answers ->
  run s0 answers = Some s ->
  processComparison s (answer_by rank s) = Some s' ->
  sortedListItemIds s' <> sortedListItemIds s ->
  exists n : nat,
    (n <= length (sortedListItemIds s))%nat
    /\ sortedListItemIds s'
       = take n (sortedListItemIds s)
         ++ currentCandidateId s :: drop n (sortedListItemIds s)
    /\ (forall x : string,
          x ∈ take n (sortedListItemIds s) ->
          rank x <= rank (currentCandidateId s))
    /\ (forall x : string,
          x ∈ drop n (sortedListItemIds s) ->
          rank (currentCandidateId s) < rank x).
Proof.
  intros Hsorted Hinit Hfollow Hrun Hstep Hchanged.
  assert (Hok : window_ok s).
  { apply Session_window. eapply run_Session; [ | exact Hrun ].
    by eapply Session_partial. }
  assert (Hinv : search_inv rank s).
  { eapply (run_search_inv rank answers s0 s); [ | | done | done ].
    - by eapply initializePartialRankingState_window.
    - by eapply initializePartialRankingState_search_inv. }
  destruct (narrowed_search_inv rank s Hok Hinv)
    as (Hleft & Hright & Hadj & Hrange).
  destruct (processComparison_cases s (answer_by rank s))
    as [ [_ Heq] | [Hgt Heq] ]; rewrite Heq in Hstep.
  { injection Hstep as <-. done. }
  destruct (pendingItemIds s) as [ | p0 [ | p1 rest ] ]; try discriminate.
  injection Hstep as <-. cbn [sortedListItemIds] in *.
  specialize (Hadj Hgt).
  set (newLow := if answer_by rank s then low s
                 else (low s + high s) / 2 + 1) in *.
  exists (Z.to_nat newLow). split; [ lia | ].
  split; [ by apply splice_insert_in_range | ].
  split.
  - intros x Hx. apply list_elem_of_lookup in Hx as (i & Hi).
    apply lookup_take_Some in Hi as (Hi & Hlt).
    eapply Hleft; [ | exact Hi ]. lia.
  - intros x Hx. apply list_elem_of_lookup in Hx as (i & Hi).
    rewrite lookup_drop in Hi.
    eapply Hright; [ | exact Hi ]. lia.
Qed.

Lemma insertion_after_ties_witness :
  exists n : nat,
    (n <= length ["a"; "c"])%nat
    /\ ["a"; "c"; "cc"]
       = take n ["a"; "c"] ++ "cc" :: drop n ["a"; "c"]
    /\ (forall x : string,
          x ∈ take n ["a"; "c"] ->
          first_char_rank x <= first_char_rank "cc")
    /\ (forall x : string,
          x ∈ drop n ["a"; "c"] ->
          first_char_rank "cc" < first_char_rank x).
Proof.
  apply (insertion_after_ties first_char_rank ["a"; "c"]
           [mkListItem "cc" "C2"; mkListItem "d" "D"; mkListItem "e" "E"]
           [false]
           {| sortedListItemIds := ["a"; "c"];
              pendingItemIds := ["d"; "e"];
              currentCandidateId := "cc";
              low := 0;
              high := 1;
              mode := Some partial |}
           {| sortedListItemIds := ["a"; "c"];
              pendingItemIds := ["d"; "e"];
              currentCandidateId := "cc";
              low := 1;
              high := 1;
              mode := Some partial |}
           {| sortedListItemIds := ["a"; "c"; "cc"];
              pendingItemIds := ["e"];
              currentCandidateId := "d";
              low := 0;
              high := 2;
              mode := Some partial |}).
  - intros i j x y Hij Hi Hj.
    destruct i as [ | [ | i ] ]; destruct j as [ | [ | j ] ];
      cbn in Hi, Hj; try lia; try discriminate.
    injection Hi as <-. injection Hj as <-. vm_compute. discriminate.
  - reflexivity.
  - vm_compute. repeat split.
  - reflexivity.
  - reflexivity.
  - discriminate.
Defined.

(** * Every state the application reaches from its initial state *)

(** X26.  From [createInitialState()], whatever actions are dispatched,
    there is at least one list, [currentListId] is [null] or the id of a
    list, and the session, if there is one, has a valid window and a
    reference item to show. *)
Theorem reachable_state_invariants (newId : string) (now : Z)
  (actions : list AnyAction) :
  let state := dispatchAll (createInitialState newId now) actions in
  lists state <> []
  /\ current_valid state
  /\ forall rs : RankingState,
       rankingState state = Some rs ->
       window_ok rs
       /\ exists reference : string,
            referenceId (getCurrentComparison rs) = Some reference
            /\ reference ∈ sortedListItemIds rs.
Proof.
  cbn zeta.
  destruct (dispatchAll_invariants actions (createInitialState newId now))
    as (Hsess & Hcur & Hlists).
  split; [ by apply Hlists | ].
  split; [ apply Hcur; intros cur Hc; discriminate | ].
  intros rs Hrs.
  assert (Hok : session_ok (createInitialState newId now))
    by (intros rs0 H0; discriminate).
  pose proof (Session_window rs (Hsess Hok rs Hrs)) as Hwin.
  split; [ done | by apply window_ok_reference ].
Qed.
